(** * apifixer.py: retry decorator, scoped API client, concurrent fetch

    A shallow embedding of [src/apifixer.py].  Coroutines are state-passing
    functions over a [world] that holds the Python objects, the state of the
    network and a chronological log of the observable events (lines printed,
    sleeps, connections opened and closed, requests sent).

    Conventions:
    - [exn] stands for the instances of Python's [Exception], the objects that
      [except Exception] catches; interpreter signals that are not such
      instances (task cancellation, interpreter exit) are not modelled;
    - durations ([delay], [backoff], [timeout]) are rationals, as every finite
      float is one; the float multiplication of line 81 is the parameter
      [mul] of the retry loop, about which nothing is assumed: [Qmult] is the
      exact product, [float_mul] the product of IEEE 754 binary64;
    - [httpx] and the JSON values it decodes are parameters;
    - of the two wrappers that [log_calls] and [timed] define, only
      [async_wrapper] is modelled: every function decorated in the file is a
      coroutine function. *)

From Stdlib Require Import ZArith QArith Qpower Lqa Ascii String SpecFloat.
From stdpp Require Import gmap strings list.

Set Default Proof Using "Type".

(** Values of a [params] dictionary ([Dict[str, Any]]). *)
Inductive pyarg : Type :=
| PInt (n : Z)
| PStr (s : string).

Definition Params : Type := list (string * pyarg).

(** ** Floats

    A Python [float] is an IEEE 754 binary64 number, [spec_float] with a
    mantissa of 53 bits; a finite one is the rational [m * 2 ^ e] of its
    mantissa and exponent. *)

Definition prec : Z := 53.
Definition emax : Z := 1024.

(** The float nearest to an integer; an integer below [2 ^ 53], or such an
    integer times a power of two, is a float itself. *)
Definition float_of_Z (n : Z) : spec_float :=
  binary_normalize prec emax n 0 false.

(** The float of a quotient [n / d] is the float quotient of the floats of
    [n] and [d]: it is the float nearest to the rational when [n] and [d]
    are floats themselves, as they are for a decimal literal of up to 15
    digits and for the rational of a float. *)
Definition float_of_Q (q : Q) : spec_float :=
  SFdiv prec emax (float_of_Z (Qnum q)) (float_of_Z (Zpos (Qden q))).

(** The rational of a finite float; infinities and NaN have none and are
    sent to 0. *)
Definition Q_of_float (f : spec_float) : Q :=
  match f with
  | S754_finite s m e =>
      let n := if s then Zneg m else Zpos m in
      match e with
      | Zneg k => Qmake n (2 ^ k)
      | _ => Qmake (n * 2 ^ e) 1
      end
  | _ => 0
  end.

(** The float that a literal denotes, as a rational: [double (1 # 10)] is
    the value of [0.1]. *)
Definition double (q : Q) : Q := Q_of_float (float_of_Q q).

(** The product of two floats, [x * y] in Python: the exact product rounded
    to the nearest float, ties to the even mantissa.  An argument that is no
    float is first replaced by its float. *)
Definition float_mul (x y : Q) : Q :=
  Q_of_float (SFmul prec emax (float_of_Q x) (float_of_Q y)).

(** ** Python values *)

(** Exception objects.  [Other e] is any exception object created outside
    this file (by [httpx], by a decoder, by a wrapped function). *)
Inductive exn (Err : Type) : Type :=
| RuntimeError (msg : string)
| TypeError (msg : string)
| ValueError (msg : string)
| AttributeError (msg : string)
| Other (e : Err).
Arguments RuntimeError {Err} msg.
Arguments TypeError {Err} msg.
Arguments ValueError {Err} msg.
Arguments AttributeError {Err} msg.
Arguments Other {Err} e.

(** How a call ends. *)
Inductive outcome (Err A : Type) : Type :=
| Return (a : A)
| Raise (e : exn Err).
Arguments Return {Err A} a.
Arguments Raise {Err A} e.

(** An [httpx.AsyncClient]: [hid] is the identity of the object. *)
Record handle : Type := Handle {
  hid : nat;
  h_base_url : string;
  h_timeout : Q
}.

(** An [APIClient] object (lines 96-99). *)
Record APIClient : Type := mkAPIClient {
  base_url : string;
  timeout : Q;
  _client : option handle
}.

(** Lines written by [print]. *)
Inductive message (Err : Type) : Type :=
| Failed (name : string) (attempt retries : Z) (e : exn Err)
| Called (name : string)
| ReturnedFrom (name : string)
| Took (name : string)
| Text (s : string).
Arguments Failed {Err} name attempt retries e.
Arguments Called {Err} name.
Arguments ReturnedFrom {Err} name.
Arguments Took {Err} name.
Arguments Text {Err} s.

Inductive event (Err : Type) : Type :=
| Printed (m : message Err)
| Slept (d : Q)
| Opened (h : handle)
| Closed (h : handle)
| Requested (h : handle) (path : string) (params : option Params).
Arguments Printed {Err} m.
Arguments Slept {Err} d.
Arguments Opened {Err} h.
Arguments Closed {Err} h.
Arguments Requested {Err} h path params.

(** References to [APIClient] objects. *)
Definition loc : Type := nat.

Record world (Err X : Type) : Type := World {
  heap : gmap loc APIClient;
  next : nat;
  net : X;
  log : list (event Err)
}.
Arguments World {Err X} heap next net log.
Arguments heap {Err X} w.
Arguments next {Err X} w.
Arguments net {Err X} w.
Arguments log {Err X} w.

(** ** Coroutines as state-passing computations *)

Section Coroutines.
Context {Err X : Type}.

Definition M (A : Type) : Type := world Err X -> outcome Err A * world Err X.

Definition ret {A} (a : A) : M A := fun w => (Return a, w).

Definition raise {A} (e : exn Err) : M A := fun w => (Raise e, w).

Definition bind {A B} (m : M A) (k : A -> M B) : M B :=
  fun w =>
    match m w with
    | (Return a, w') => k a w'
    | (Raise e, w') => (Raise e, w')
    end.

(** [try: body finally: handler], for a handler that does not raise. *)
Definition try_finally {A} (body : M A) (handler : world Err X -> world Err X) : M A :=
  fun w => let '(o, w') := body w in (o, handler w').

Definition emit (ev : event Err) (w : world Err X) : world Err X :=
  World (heap w) (next w) (net w) (log w ++ [ev]).

Definition print (m : message Err) : world Err X -> world Err X :=
  emit (Printed m).

(** [await asyncio.sleep(d)] *)
Definition sleep (d : Q) : world Err X -> world Err X := emit (Slept d).

Definition set_net (x : X) (w : world Err X) : world Err X :=
  World (heap w) (next w) x (log w).

(** *** Decorators *)

(** A coroutine function with its [__name__]; [Args] is what it is called
    with. *)
Record pyfunc (Args V : Type) : Type := PyFunc {
  __name__ : string;
  call : Args -> M V
}.
Arguments PyFunc {Args V} __name__ call.
Arguments __name__ {Args V} _.
Arguments call {Args V} _ _.

(** [log_calls] (lines 19-37), [async_wrapper]: the second line is printed
    only when the call returns.  The arguments and the type of the result
    are not recorded in the logged lines. *)
Definition log_calls {Args V} (func : pyfunc Args V) : pyfunc Args V :=
  PyFunc (__name__ func)
    (fun args w =>
       match call func args (print (Called (__name__ func)) w) with
       | (Return result, w') =>
           (Return result, print (ReturnedFrom (__name__ func)) w')
       | (Raise e, w') => (Raise e, w')
       end).

(** [timed] (lines 41-63), [async_wrapper]: the elapsed time is only
    printed, the line is logged without it. *)
Definition timed {Args V} (func : pyfunc Args V) : pyfunc Args V :=
  PyFunc (__name__ func)
    (fun args => try_finally (call func args) (print (Took (__name__ func)))).

(** The loop of [wrapper] (lines 73-82).  [fuel] is the number of values
    [range(1, retries + 1)] still has to yield, [attempt] the next one, and
    [mul] the multiplication of [_delay *= backoff] (line 81). *)
Fixpoint retry_loop {Args V} (mul : Q -> Q -> Q) (retries : Z) (backoff : Q)
    (func : pyfunc Args V) (args : Args)
    (fuel : nat) (attempt : Z) (_delay : Q) (last_err : option (exn Err))
    : M V :=
  match fuel with
  | O =>
      match last_err with
      | Some e => raise e
      | None => raise (TypeError "exceptions must derive from BaseException")
      end
  | S fuel' =>
      fun w =>
        match call func args w with
        | (Return v, w1) => (Return v, w1)
        | (Raise e, w1) =>
            let w2 := print (Failed (__name__ func) attempt retries e) w1 in
            if (attempt <? retries)%Z
            then retry_loop mul retries backoff func args fuel' (attempt + 1)%Z
                   (mul _delay backoff) (Some e) (sleep _delay w2)
            else retry_loop mul retries backoff func args fuel' (attempt + 1)%Z
                   _delay (Some e) w2
        end
  end.

(** [wrapper] (lines 70-82). *)
Definition wrapper {Args V} (mul : Q -> Q -> Q)
    (retries : Z) (delay backoff : Q)
    (func : pyfunc Args V) (args : Args) : M V :=
  retry_loop mul retries backoff func args (Z.to_nat retries) 1%Z delay None.

(** [_decorator] (lines 68-83); [functools.wraps] keeps the name. *)
Definition _decorator {Args V} (mul : Q -> Q -> Q)
    (retries : Z) (delay backoff : Q)
    (func : pyfunc Args V) : pyfunc Args V :=
  PyFunc (__name__ func) (wrapper mul retries delay backoff func).

(** [retry_async_safe] (lines 66-84): building the decorator evaluates no
    [raise] and inspects none of its arguments. *)
Definition retry_async_safe {Args V} (mul : Q -> Q -> Q)
    (retries : Z) (delay backoff : Q)
    : outcome Err (pyfunc Args V -> pyfunc Args V) :=
  Return (_decorator mul retries delay backoff).

End Coroutines.
Arguments PyFunc {Err X Args V} __name__ call.
Arguments __name__ {Err X Args V} _.
Arguments call {Err X Args V} _ _.
Arguments M Err X A : clear implicits.

(** ** [str.rstrip] *)

Definition char_in (c : ascii) (chars : string) : bool :=
  bool_decide (c ∈ list_ascii_of_string chars).

(** [s.rstrip(chars)]: [s] without its longest suffix made of characters of
    [chars].  A string is its UTF-8 bytes; the byte of an ASCII character
    such as "/" occurs in no other encoded character. *)
Fixpoint rstrip (s chars : string) : string :=
  match s with
  | EmptyString => EmptyString
  | String c s' =>
      match rstrip s' chars with
      | EmptyString => if char_in c chars then EmptyString else String c EmptyString
      | r => String c r
      end
  end.

(** ** [APIClient] (lines 90-134) *)

Section Client.
Context {Err X JSON Response : Type}.

(** [httpx]: [await client.get(path, params=params)] answers from the state
    of the network, [resp.raise_for_status()] and [resp.json()] inspect the
    response. *)
Variable http_get :
  handle -> string -> option Params -> X -> outcome Err Response * X.
Variable raise_for_status : Response -> option (exn Err).
Variable json : Response -> outcome Err JSON.

Local Abbreviation world := (world Err X).
Local Abbreviation M := (M Err X).

(** Reading [self._client] where [self] is no client object.  No reference
    of the program is in that case. *)
Definition no_such_object {A} : M A :=
  raise (AttributeError "object has no attribute '_client'").

(** [APIClient(base_url, timeout)]: a new object, [__init__] (lines 96-99). *)
Definition __init__ (base_url : string) (timeout : Q) : M loc :=
  fun w =>
    let self := next w in
    (Return self,
     World (<[self := mkAPIClient (rstrip base_url "/") timeout None]> (heap w))
           (S (next w)) (net w) (log w)).

(** [__aenter__] (lines 101-103). *)
Definition __aenter__ (self : loc) : M loc :=
  fun w =>
    match heap w !! self with
    | None => no_such_object w
    | Some c =>
        let h := Handle (next w) (base_url c) (timeout c) in
        (Return self,
         World (<[self := mkAPIClient (base_url c) (timeout c) (Some h)]> (heap w))
               (S (next w)) (net w) (log w ++ [Opened h]))
    end.

(** [__aexit__] (lines 112-115); [aclose] is taken to return normally.  The
    result is [None]: an exception of the block is not suppressed. *)
Definition __aexit__ (self : loc) : M unit :=
  fun w =>
    match heap w !! self with
    | None => no_such_object w
    | Some c =>
        match _client c with
        | Some h =>
            (Return tt,
             World (<[self := mkAPIClient (base_url c) (timeout c) None]> (heap w))
                   (next w) (net w) (log w ++ [Closed h]))
        | None => (Return tt, w)
        end
    end.

(** [async with cm as v: body]. *)
Definition async_with {A} (cm : M loc) (body : loc -> M A) : M A :=
  fun w =>
    match cm w with
    | (Raise e, w1) => (Raise e, w1)
    | (Return obj, w1) =>
        match __aenter__ obj w1 with
        | (Raise e, w2) => (Raise e, w2)
        | (Return v, w2) =>
            let '(o, w3) := body v w2 in
            match __aexit__ obj w3 with
            | (Return _, w4) => (o, w4)
            | (Raise e, w4) => (Raise e, w4)
            end
        end
    end.

Definition not_initialized : exn Err :=
  RuntimeError "APIClient not initialized. Use 'async with APIClient(...) as c:'".

(** The body of [get_json] (lines 129-134). *)
Definition get_json_body (args : loc * string * option Params) : M JSON :=
  let '(self, path, params) := args in
  fun w =>
    match heap w !! self with
    | None => no_such_object w
    | Some c =>
        match _client c with
        | None => (Raise not_initialized, w)
        | Some h =>
            let w1 := emit (Requested h path params) w in
            match http_get h path params (net w1) with
            | (Raise e, x) => (Raise e, set_net x w1)
            | (Return resp, x) =>
                match raise_for_status resp with
                | Some e => (Raise e, set_net x w1)
                | None => (json resp, set_net x w1)
                end
            end
        end
    end.

(** [get_json] with its decorators (lines 126-129); [backoff] keeps its
    default 2.0.  Doubling a float is exact, so the products of line 81 are
    the exact ones here ([get_json_backoff_exact] below). *)
Definition get_json : pyfunc (loc * string * option Params) JSON :=
  _decorator Qmult 3 (3 # 10) 2 (timed (log_calls (PyFunc "get_json" get_json_body))).

(** ** [asyncio.gather] *)

(** The tasks start in the order they were submitted and each runs to its
    end, also when another one has failed.  The events of a task are logged
    together: how the event loop interleaves the tasks, and what the tasks
    that are still running do once a failure has been propagated, is not
    modelled.  Of a run in which a task fails the log therefore holds the
    events each task logs when it is left to finish, which the tasks that
    are cut short do not all reach; what is read off such a log below (the
    error propagated, the connections opened and closed, bounds on the
    requests) does not depend on them. *)
Fixpoint run_all {V} (tasks : list (M V)) (w : world) : list (outcome Err V) * world :=
  match tasks with
  | [] => ([], w)
  | t :: ts =>
      let '(o, w1) := t w in
      let '(os, w2) := run_all ts w1 in
      (o :: os, w2)
  end.

(** The error of the first task of [order] that failed. *)
Fixpoint first_failure {V} (order : list nat) (outs : list (outcome Err V))
    : option (exn Err) :=
  match order with
  | [] => None
  | i :: order' =>
      match outs !! i with
      | Some (Raise e) => Some e
      | _ => first_failure order' outs
      end
  end.

(** The results in the order of submission, or the first error in that
    order. *)
Fixpoint collect {V} (outs : list (outcome Err V)) : outcome Err (list V) :=
  match outs with
  | [] => Return []
  | Return v :: outs' =>
      match collect outs' with
      | Return vs => Return (v :: vs)
      | Raise e => Raise e
      end
  | Raise e :: _ => Raise e
  end.

(** [await asyncio.gather] of the tasks, without [return_exceptions]: the first
    exception raised is propagated, otherwise the list of the results.
    [order] lists the indices of the tasks in the order they finish. *)
Definition gather {V} (order : list nat) (tasks : list (M V)) : M (list V) :=
  fun w =>
    let '(outs, w') := run_all tasks w in
    match first_failure order outs with
    | Some e => (Raise e, w')
    | None => (collect outs, w')
    end.

(** ** [fetch_demo] (lines 139-158) *)

(** What the summary lines print depends on the shape of the decoded JSON:
    the lines printed, and the exception that stops the printing if any. *)
Variable summary : JSON -> JSON -> JSON -> JSON -> JSON -> list string * option (exn Err).

(** The order in which the five gathered calls finish. *)
Variable order : list nat.

(** Lines 141-152: the two scopes and the names bound by the assignment. *)
Definition fetch_demo_scopes : M (JSON * JSON * JSON * JSON * JSON) :=
  async_with (__init__ "https://jsonplaceholder.typicode.com" 10) (fun jp =>
    let users_task := call get_json (jp, "/users/1", None) in
    let post_task := call get_json (jp, "/posts/1", None) in
    let comments_task :=
      call get_json (jp, "/comments", Some [("postId", PInt 1)]) in
    async_with (__init__ "https://httpbin.org" 10) (fun hb =>
      let slow1 := call get_json (hb, "/delay/1", None) in
      let slow2 := call get_json (hb, "/delay/2", None) in
      bind (gather order [users_task; post_task; comments_task; slow1; slow2])
        (fun results =>
           match results with
           | [users; post; comments; d1; d2] =>
               ret (users, post, comments, d1, d2)
           | _ => raise (ValueError "wrong number of values to unpack")
           end))).

(** Lines 154-158. *)
Definition print_summary (r : JSON * JSON * JSON * JSON * JSON) : M unit :=
  let '(users, post, comments, d1, d2) := r in
  fun w =>
    let '(lines, stop) := summary users post comments d1 d2 in
    let w' := foldl (fun w line => print (Text line) w) w lines in
    match stop with
    | Some e => (Raise e, w')
    | None => (Return tt, w')
    end.

Definition fetch_demo : pyfunc unit unit :=
  timed (PyFunc "fetch_demo" (fun _ => bind fetch_demo_scopes print_summary)).

(** What the gathered calls that are still on the loop when [fetch_demo]
    has raised log from then on, until [asyncio.run] has cancelled them: a
    call cancelled in the middle of an attempt prints its timing line on its
    way out, for instance.  Nothing is left when the five calls had
    finished. *)
Variable leftover : list (event Err).

(** [main] (lines 163-166).  [asyncio.run] runs the coroutine to its end,
    cancels the tasks that are left on the loop and lets the exception of
    the coroutine through.  When [fetch_demo] returns, [gather] has returned
    and no task is left.  The line break that ends the first line is left
    out of the logged text. *)
Definition main : M unit :=
  fun w =>
    match call fetch_demo tt
            (print (Text " Starting Async API Fetcher (Fixed)") w) with
    | (Return _, w') => (Return tt, print (Text "Done") w')
    | (Raise e, w') => (Raise e, foldl (fun w ev => emit ev w) w' leftover)
    end.

End Client.

(** * Observations and sample runs

    What the statements below observe of a run, and the operations, networks
    and worlds on which they are exercised. *)

(** ** Logs *)

(** The invocations recorded in a log. *)
Definition is_call {Err} (ev : event Err) : bool :=
  match ev with Printed (Called _) => true | _ => false end.

Definition calls {Err} (l : list (event Err)) : nat :=
  length (List.filter is_call l).

Definition is_sleep {Err} (ev : event Err) : bool :=
  match ev with Slept _ => true | _ => false end.

(** The durations slept, in order. *)
Definition sleeps {Err} (l : list (event Err)) : list Q :=
  omap (fun ev => match ev with Slept d => Some d | _ => None end) l.

Definition is_lifecycle {Err} (ev : event Err) : bool :=
  match ev with Opened _ | Closed _ => true | _ => false end.

(** The connections opened and closed, in order. *)
Definition lifecycle {Err} (l : list (event Err)) : list (event Err) :=
  List.filter is_lifecycle l.

Definition is_request {Err} (ev : event Err) : bool :=
  match ev with Requested _ _ _ => true | _ => false end.

(** The requests sent, in order. *)
Definition requests {Err} (l : list (event Err)) : list (event Err) :=
  List.filter is_request l.

(** The warnings of the retry loop (line 78), in order: the name, the
    attempt, the number of attempts allowed and the error of each. *)
Definition warnings {Err} (l : list (event Err))
    : list (string * Z * Z * exn Err) :=
  omap (fun ev => match ev with
                  | Printed (Failed name attempt retries e) =>
                      Some (name, attempt, retries, e)
                  | _ => None
                  end) l.

(** Logging a list of events, the first one first. *)
Definition emit_all {Err X} (evs : list (event Err)) (w : world Err X)
    : world Err X :=
  foldl (fun w ev => emit ev w) w evs.

(** [w'] has the objects and the connections of [w]. *)
Definition same_objects {Err X} (w w' : world Err X) : Prop :=
  heap w' = heap w /\ next w' = next w /\
  lifecycle (log w') = lifecycle (log w).

(** A computation that leaves the objects and the connections alone. *)
Definition quiet {Err X A} (m : M Err X A) : Prop :=
  forall w, same_objects w (m w).2.

(** ** Scripted operations

    The wrapped function of a retried call is arbitrary code.  What the loop
    sees of it is how each invocation ends; [scripted name script] is the
    operation whose [k]-th invocation (counted from 1) ends as [script k].
    The state of its world is the number of invocations so far; each
    invocation also leaves a [Called] line in the log. *)

Definition scripted {Err V} (name : string) (script : nat -> outcome Err V)
    : pyfunc (Err:=Err) (X:=nat) unit V :=
  PyFunc name
    (fun _ w =>
       (script (S (net w)), set_net (S (net w)) (print (Called name) w))).

Definition is_raise {Err A} (o : outcome Err A) : bool :=
  match o with Raise _ => true | Return _ => false end.

(** [d], [mul d b], [mul (mul d b) b], ...: the values [_delay] takes when
    it is multiplied by [b] after each of [n] sleeps. *)
Fixpoint backoff_delays (mul : Q -> Q -> Q) (d b : Q) (n : nat) : list Q :=
  match n with
  | O => []
  | S n' => d :: backoff_delays mul (mul d b) b n'
  end.

(** A script that fails twice and then returns, used to exercise the
    statements below. *)
Definition fails_twice : nat -> outcome string string :=
  fun k =>
    match k with
    | 1 => Raise (Other "ConnectTimeout")
    | 2 => Raise (Other "ReadTimeout")
    | _ => Return "X"
    end.

(** A script that fails at every invocation, each time with another error. *)
Definition always_fails : nat -> outcome string string :=
  fun k =>
    match k with
    | 1 => Raise (Other "ConnectTimeout")
    | 2 => Raise (Other "ReadTimeout")
    | _ => Raise (Other "JSONDecodeError")
    end.

(** The failures of [always_fails], with other errors. *)
Definition always_fails_otherwise : nat -> outcome string string :=
  fun k => Raise (Other "HTTPStatusError").

(** A world without objects, requests or events. *)
Definition idle : world string nat := World ∅ 0 0 [].

(** ** Base URLs *)

(** [n] times "/". *)
Fixpoint slashes (n : nat) : string :=
  match n with
  | O => EmptyString
  | S n' => String "/" (slashes n')
  end.

Definition jp_url : string := "https://jsonplaceholder.typicode.com".
Definition hb_url : string := "https://httpbin.org".

(** ** Scopes *)

(** The world in which the block of [async with APIClient(url, t)] starts,
    and the connection it has opened. *)
Definition entered {Err X} (url : string) (t : Q) (w : world Err X)
    : world Err X :=
  (__aenter__ (next w) (__init__ url t w).2).2.

Definition connection {Err X} (url : string) (t : Q) (w : world Err X)
    : handle :=
  Handle (S (next w)) (rstrip url "/") t.

(** The events of a call of [get_json] on a client without connection. *)
Definition not_initialized_events {Err} : list (event Err) :=
  [Printed (Called "get_json"); Printed (Took "get_json");
   Printed (Failed "get_json" 1 3 not_initialized); Slept (3 # 10);
   Printed (Called "get_json"); Printed (Took "get_json");
   Printed (Failed "get_json" 2 3 not_initialized); Slept ((3 # 10) * 2);
   Printed (Called "get_json"); Printed (Took "get_json");
   Printed (Failed "get_json" 3 3 not_initialized)].

(** ** The run of [fetch_demo] *)

(** The world in which the gathered calls start: both scopes are entered.
    The outer client is [next w], the inner one [S (S (next w))]. *)
Definition in_scopes {Err X} (w : world Err X) : world Err X :=
  entered hb_url 10 (entered jp_url 10 w).

Definition jp_connection {Err X} (w : world Err X) : handle :=
  connection jp_url 10 w.

Definition hb_connection {Err X} (w : world Err X) : handle :=
  connection hb_url 10 (entered jp_url 10 w).

Section GatheredCalls.
Context {Err X JSON Response : Type}.
Variable http_get :
  handle -> string -> option Params -> X -> outcome Err Response * X.
Variable raise_for_status : Response -> option (exn Err).
Variable json : Response -> outcome Err JSON.

Local Abbreviation get_json' := (get_json http_get raise_for_status json).

(** The five calls handed to [gather], as submitted. *)
Definition gathered_calls (w : world Err X) : list (M Err X JSON) :=
  [call get_json' (next w, "/users/1", None);
   call get_json' (next w, "/posts/1", None);
   call get_json' (next w, "/comments", Some [("postId", PInt 1)]);
   call get_json' (S (S (next w)), "/delay/1", None);
   call get_json' (S (S (next w)), "/delay/2", None)].

End GatheredCalls.

(** The assignment of line 150. *)
Definition unpack {Err JSON} (o : outcome Err (list JSON))
    : outcome Err (JSON * JSON * JSON * JSON * JSON) :=
  match o with
  | Return [users; post; comments; d1; d2] =>
      Return (users, post, comments, d1, d2)
  | Return _ => Raise (ValueError "wrong number of values to unpack")
  | Raise e => Raise e
  end.

(** The world the two scopes leave behind when the gathered calls left
    [wg]: the inner connection is closed first, then the outer one. *)
Definition scopes_left {Err X} (w wg : world Err X) : world Err X :=
  World (<[next w := mkAPIClient (rstrip jp_url "/") 10 None]>
           (<[S (S (next w)) := mkAPIClient (rstrip hb_url "/") 10 None]>
              (heap wg)))
        (next wg) (net wg)
        (log wg ++ [Closed (hb_connection w); Closed (jp_connection w)]).

(** Networks for the runs below.  The state of the network counts the
    requests, a response is the path requested, and a foreign exception is
    the name of its class. *)
Definition unreachable
    : handle -> string -> option Params -> nat -> outcome string string * nat :=
  fun _ _ _ n => (Raise (Other "ConnectError"), S n).

Definition echo
    : handle -> string -> option Params -> nat -> outcome string string * nat :=
  fun _ path _ n => (Return path, S n).

(** Every request succeeds but those for "/delay/2". *)
Definition flaky
    : handle -> string -> option Params -> nat -> outcome string string * nat :=
  fun _ path _ n =>
    if String.eqb path "/delay/2" then (Raise (Other "ReadTimeout"), S n)
    else (Return path, S n).

Definition any_status : string -> option (exn string) := fun _ => None.

Definition decoded : string -> outcome string string := Return.

(** Lines 154-158 when the decoded values are strings, as they are on these
    networks: the heading is printed (line 154, logged without its line
    break and its pictograph), then [users.get] fails (line 155), a string
    having no such method. *)
Definition summary_of_strings
    : string -> string -> string -> string -> string
      -> list string * option (exn string) :=
  fun _ _ _ _ _ =>
    (["Summary"],
     Some (AttributeError "'str' object has no attribute 'get'")).

(** The name of the class of an exception. *)
Definition class_name (e : exn string) : string :=
  match e with
  | RuntimeError _ => "RuntimeError"
  | TypeError _ => "TypeError"
  | ValueError _ => "ValueError"
  | AttributeError _ => "AttributeError"
  | Other cls => cls
  end.

(** * Properties *)

(** ** Event logs *)

Lemma sleeps_app {Err} (l1 l2 : list (event Err)) :
  sleeps (l1 ++ l2) = sleeps l1 ++ sleeps l2.
Proof. unfold sleeps. apply omap_app. Qed.

Lemma calls_app {Err} (l1 l2 : list (event Err)) :
  calls (l1 ++ l2) = calls l1 + calls l2.
Proof. unfold calls. by rewrite List.filter_app, length_app. Qed.

Lemma backoff_delays_length mul d b n : length (backoff_delays mul d b n) = n.
Proof. revert d. induction n as [|n IH]; intros d; simpl; [done|]. by rewrite IH. Qed.

(** The [k]-th delay of the schedule (from 0) is [d] multiplied [k] times
    by [b]. *)
Lemma backoff_delays_iter mul d b n k x :
  backoff_delays mul d b n !! k = Some x ->
  x = Nat.iter k (fun y => mul y b) d.
Proof.
  revert d k. induction n as [|n IH]; intros d k; [done|].
  destruct k as [|k].
  - by intros [= <-].
  - intros Hk. change (backoff_delays mul (mul d b) b n !! k = Some x) in Hk.
    rewrite (IH _ _ Hk). by rewrite Nat.iter_succ_r.
Qed.

(** When the products are exact it is [d * b ^ k]. *)
Lemma backoff_delays_lookup mul d b n k x :
  (forall y z, mul y z == y * z)%Q ->
  backoff_delays mul d b n !! k = Some x -> (x == d * b ^ Z.of_nat k)%Q.
Proof.
  intros Hmul. revert d k. induction n as [|n IH]; intros d k; [done|].
  destruct k as [|k].
  - intros [= <-]. change (b ^ Z.of_nat 0)%Q with 1%Q. ring.
  - intros Hk. change (backoff_delays mul (mul d b) b n !! k = Some x) in Hk.
    rewrite (IH _ _ Hk), Hmul, Nat2Z.inj_succ, <- Z.add_1_r.
    rewrite Qpower_plus' by lia. rewrite Qpower_1_r. ring.
Qed.

(** ** The retry loop on a scripted operation *)

Section RetryLoop.
Context {Err V : Type}.
Variables (mul : Q -> Q -> Q) (retries : Z) (backoff : Q) (name : string).
Variable script : nat -> outcome Err V.

Local Abbreviation loop := (retry_loop mul retries backoff (scripted name script) tt).

Lemma loop_O attempt d last_err (w : world Err nat) :
  loop 0 attempt d last_err w =
    (Raise (default (TypeError "exceptions must derive from BaseException") last_err), w).
Proof. by destruct last_err. Qed.

Lemma loop_S_return fuel attempt d last_err (w : world Err nat) v :
  script (S (net w)) = Return v ->
  loop (S fuel) attempt d last_err w =
    (Return v, set_net (S (net w)) (print (Called name) w)).
Proof. intros Hs. simpl. by rewrite Hs. Qed.

Lemma loop_S_raise fuel attempt d last_err (w : world Err nat) e :
  script (S (net w)) = Raise e ->
  loop (S fuel) attempt d last_err w =
    let w2 := print (Failed name attempt retries e)
                (set_net (S (net w)) (print (Called name) w)) in
    if (attempt <? retries)%Z
    then loop fuel (attempt + 1)%Z (mul d backoff) (Some e) (sleep d w2)
    else loop fuel (attempt + 1)%Z d (Some e) w2.
Proof. intros Hs. simpl. by rewrite Hs. Qed.

(** A run that meets [m < fuel] failures and then a success returns the
    value of that success after [m + 1] invocations. *)
Lemma loop_succeeds m : forall fuel attempt d last_err (w : world Err nat) v,
  m < fuel ->
  (forall k, 1 <= k <= m -> is_raise (script (net w + k)) = true) ->
  script (net w + S m) = Return v ->
  (loop fuel attempt d last_err w).1 = Return v /\
  net (loop fuel attempt d last_err w).2 = net w + S m.
Proof.
  induction m as [|m IH]; intros fuel attempt d last_err w v Hlt Hfail Hok;
    (destruct fuel as [|fuel]; [lia|]).
  - rewrite Nat.add_1_r in Hok. rewrite (loop_S_return _ _ _ _ _ _ Hok).
    simpl. split; [done|lia].
  - destruct (script (S (net w))) as [v'|e] eqn:Hs.
    { specialize (Hfail 1). rewrite Nat.add_1_r, Hs in Hfail.
      discriminate Hfail. lia. }
    rewrite (loop_S_raise _ _ _ _ _ _ Hs). cbv zeta.
    assert (Hshift : forall w' : world Err nat, net w' = S (net w) ->
      (forall k, 1 <= k <= m -> is_raise (script (net w' + k)) = true) /\
      script (net w' + S m) = Return v).
    { intros w' ->. split.
      - intros k Hk. replace (S (net w) + k) with (net w + S k) by lia.
        apply Hfail. lia.
      - rewrite <- Hok. f_equal. lia. }
    destruct (attempt <? retries)%Z.
    + destruct (Hshift (sleep d (print (Failed name attempt retries e)
        (set_net (S (net w)) (print (Called name) w)))) eq_refl) as [H1 H2].
      destruct (IH fuel (attempt + 1)%Z (mul d backoff) (Some e) _ v
                  ltac:(lia) H1 H2) as [-> ->].
      simpl. split; [done|lia].
    + destruct (Hshift (print (Failed name attempt retries e)
        (set_net (S (net w)) (print (Called name) w))) eq_refl) as [H1 H2].
      destruct (IH fuel (attempt + 1)%Z d (Some e) _ v ltac:(lia) H1 H2)
        as [-> ->].
      simpl. split; [done|lia].
Qed.

(** Whatever the run, an error that comes out of the loop is the one the
    last invocation raised. *)
Lemma loop_raises_last fuel : forall attempt d last_err (w : world Err nat) e,
  (fuel = 0 -> last_err <> None) ->
  (forall e0, last_err = Some e0 -> script (net w) = Raise e0) ->
  (loop fuel attempt d last_err w).1 = Raise e ->
  script (net (loop fuel attempt d last_err w).2) = Raise e.
Proof.
  induction fuel as [|fuel IH]; intros attempt d last_err w e Hsome Hlast.
  - rewrite loop_O. destruct last_err as [e0|]; [|by destruct Hsome].
    simpl. intros [= <-]. by apply Hlast.
  - destruct (script (S (net w))) as [v'|e1] eqn:Hs.
    { by rewrite (loop_S_return _ _ _ _ _ _ Hs). }
    rewrite (loop_S_raise _ _ _ _ _ _ Hs). cbv zeta.
    destruct (attempt <? retries)%Z; apply IH; try done;
      by intros e0 [= <-].
Qed.

(** A run in which every invocation fails ends with the error of the last
    of its [fuel] invocations. *)
Lemma loop_exhausts fuel : forall attempt d last_err (w : world Err nat),
  (forall k, 1 <= k <= fuel -> is_raise (script (net w + k)) = true) ->
  is_raise (loop fuel attempt d last_err w).1 = true /\
  net (loop fuel attempt d last_err w).2 = net w + fuel.
Proof.
  induction fuel as [|fuel IH]; intros attempt d last_err w Hfail.
  - rewrite loop_O. simpl. split; [done|lia].
  - destruct (script (S (net w))) as [v'|e] eqn:Hs.
    { specialize (Hfail 1). rewrite Nat.add_1_r, Hs in Hfail.
      discriminate Hfail. lia. }
    rewrite (loop_S_raise _ _ _ _ _ _ Hs). cbv zeta.
    assert (Hshift : forall w' : world Err nat, net w' = S (net w) ->
      forall k, 1 <= k <= fuel -> is_raise (script (net w' + k)) = true).
    { intros w' -> k Hk. replace (S (net w) + k) with (net w + S k) by lia.
      apply Hfail. lia. }
    destruct (attempt <? retries)%Z.
    + destruct (IH (attempt + 1)%Z (mul d backoff) (Some e) _
        (Hshift (sleep d (print (Failed name attempt retries e)
           (set_net (S (net w)) (print (Called name) w)))) eq_refl)) as [-> ->].
      simpl. split; [done|lia].
    + destruct (IH (attempt + 1)%Z d (Some e) _
        (Hshift (print (Failed name attempt retries e)
           (set_net (S (net w)) (print (Called name) w))) eq_refl)) as [-> ->].
      simpl. split; [done|lia].
Qed.

(** The events of a run: the sleeps follow the backoff schedule, every sleep
    is followed by a further invocation, and the run does not end on a
    sleep. *)
Lemma loop_log fuel : forall attempt d last_err (w : world Err nat),
  (Z.of_nat fuel + attempt = retries + 1)%Z ->
  exists evs,
    log (loop fuel attempt d last_err w).2 = log w ++ evs /\
    sleeps evs = backoff_delays mul d backoff (length (sleeps evs)) /\
    net (loop fuel attempt d last_err w).2 = net w + calls evs /\
    (fuel <> 0 -> calls evs = S (length (sleeps evs))) /\
    (fuel = 0 -> evs = []) /\
    (forall ev, last evs = Some ev -> is_sleep ev = false) /\
    (forall pre d' post, evs = pre ++ Slept d' :: post ->
       calls pre = S (length (sleeps pre))).
Proof.
  induction fuel as [|fuel IH]; intros attempt d last_err w Hinv.
  - rewrite loop_O. exists []. simpl. rewrite app_nil_r.
    repeat split; try done; try lia. by intros [|??] ???.
  - destruct (script (S (net w))) as [v'|e] eqn:Hs.
    { rewrite (loop_S_return _ _ _ _ _ _ Hs).
      exists [Printed (Called name)]. unfold calls. simpl.
      repeat split; try done; [lia|by intros ev [= <-]|].
      by intros [|? [|??]] ???. }
    rewrite (loop_S_raise _ _ _ _ _ _ Hs). cbv zeta.
    destruct (attempt <? retries)%Z eqn:Hlt.
    + apply Z.ltb_lt in Hlt.
      destruct (IH (attempt + 1)%Z (mul d backoff) (Some e)
        (sleep d (print (Failed name attempt retries e)
           (set_net (S (net w)) (print (Called name) w)))) ltac:(lia))
        as (evs & Hlog & Hsl & Hnet & Hcalls & _ & Hlast & Hpos).
      specialize (Hcalls ltac:(lia)).
      exists ([Printed (Called name); Printed (Failed name attempt retries e);
               Slept d] ++ evs).
      rewrite Hlog, Hnet. simpl log. rewrite <- !app_assoc. simpl app.
      change (calls (_ :: _ :: _ :: evs)) with (S (calls evs)).
      change (sleeps (_ :: _ :: _ :: evs)) with (d :: sleeps evs).
      simpl. rewrite <- Hsl.
      repeat split; try done; try lia.
      * intros ev. rewrite !last_cons.
        destruct (last evs) as [ev'|] eqn:Hev; [intros [= <-]; by apply Hlast|].
        apply last_None in Hev. subst evs. discriminate Hcalls.
      * intros [|a [|b [|c pre]]] d' post Heq; try discriminate Heq.
        { by injection Heq as <- <- _ _. }
        injection Heq as <- <- <- Heq.
        change (calls (_ :: _ :: _ :: pre)) with (S (calls pre)).
        change (sleeps (_ :: _ :: _ :: pre)) with (d :: sleeps pre).
        simpl. f_equal. by eapply Hpos.
    + apply Z.ltb_ge in Hlt.
      destruct (IH (attempt + 1)%Z d (Some e)
        (print (Failed name attempt retries e)
           (set_net (S (net w)) (print (Called name) w))) ltac:(lia))
        as (evs & Hlog & _ & Hnet & _ & Hnil & _ & _).
      assert (evs = []) as -> by (apply Hnil; lia).
      exists [Printed (Called name); Printed (Failed name attempt retries e)].
      rewrite Hlog, Hnet. simpl log. rewrite app_nil_r, <- !app_assoc.
      unfold calls. simpl. repeat split; try done; try lia.
      * by intros ev [= <-].
      * by intros [|? [|? [|??]]] ???.
Qed.

End RetryLoop.

(** Two operations that fail at the same invocations drive the loop the same
    way, whatever the errors they raise. *)
Section SameFailures.
Context {Err V : Type}.
Variables (mul : Q -> Q -> Q) (retries : Z) (backoff : Q) (name1 name2 : string).
Variables script1 script2 : nat -> outcome Err V.
Hypothesis same_failures :
  forall k, is_raise (script1 k) = is_raise (script2 k).

Local Abbreviation loop1 := (retry_loop mul retries backoff (scripted name1 script1) tt).
Local Abbreviation loop2 := (retry_loop mul retries backoff (scripted name2 script2) tt).

Lemma loop_same_schedule fuel :
  forall attempt d last1 last2 (w1 w2 : world Err nat),
  net w1 = net w2 ->
  is_raise (loop1 fuel attempt d last1 w1).1
    = is_raise (loop2 fuel attempt d last2 w2).1 /\
  net (loop1 fuel attempt d last1 w1).2 = net (loop2 fuel attempt d last2 w2).2 /\
  exists evs1 evs2,
    log (loop1 fuel attempt d last1 w1).2 = log w1 ++ evs1 /\
    log (loop2 fuel attempt d last2 w2).2 = log w2 ++ evs2 /\
    sleeps evs1 = sleeps evs2 /\
    calls evs1 = calls evs2.
Proof using same_failures.
  induction fuel as [|fuel IH]; intros attempt d last1 last2 w1 w2 Hnet.
  - rewrite !loop_O. simpl. repeat split; [done|].
    exists [], []. by rewrite !app_nil_r.
  - pose proof (same_failures (S (net w1))) as Hk.
    destruct (script1 (S (net w1))) as [v1|e1] eqn:Hs1;
      rewrite Hnet in Hk;
      destruct (script2 (S (net w2))) as [v2|e2] eqn:Hs2; try discriminate Hk.
    + rewrite (loop_S_return _ _ _ _ _ _ _ _ _ _ _ Hs1).
      rewrite (loop_S_return _ _ _ _ _ _ _ _ _ _ _ Hs2).
      simpl. repeat split; [by rewrite Hnet|].
      by exists [Printed (Called name1)], [Printed (Called name2)].
    + rewrite (loop_S_raise _ _ _ _ _ _ _ _ _ _ _ Hs1).
      rewrite (loop_S_raise _ _ _ _ _ _ _ _ _ _ _ Hs2). cbv zeta.
      destruct (attempt <? retries)%Z.
      * match goal with
        | |- context [loop1 fuel ?a ?d' ?l1 ?u1] =>
            match goal with
            | |- context [loop2 fuel a d' ?l2 ?u2] =>
                destruct (IH a d' l1 l2 u1 u2) as (Ho & Hn & evs1 & evs2 & Hl1 & Hl2 & Hsl & Hc)
            end
        end; [simpl; by rewrite Hnet|].
        repeat split; [done..|].
        exists ([Printed (Called name1); Printed (Failed name1 attempt retries e1);
                 Slept d] ++ evs1),
               ([Printed (Called name2); Printed (Failed name2 attempt retries e2);
                 Slept d] ++ evs2).
        rewrite Hl1, Hl2. simpl log. rewrite <- !app_assoc.
        rewrite !sleeps_app, !calls_app, Hsl, Hc. done.
      * match goal with
        | |- context [loop1 fuel ?a ?d' ?l1 ?u1] =>
            match goal with
            | |- context [loop2 fuel a d' ?l2 ?u2] =>
                destruct (IH a d' l1 l2 u1 u2) as (Ho & Hn & evs1 & evs2 & Hl1 & Hl2 & Hsl & Hc)
            end
        end; [simpl; by rewrite Hnet|].
        repeat split; [done..|].
        exists ([Printed (Called name1); Printed (Failed name1 attempt retries e1)]
                 ++ evs1),
               ([Printed (Called name2); Printed (Failed name2 attempt retries e2)]
                 ++ evs2).
        rewrite Hl1, Hl2. simpl log. rewrite <- !app_assoc.
        rewrite !sleeps_app, !calls_app, Hsl, Hc. done.
Qed.

End SameFailures.

(** ** The retry policy *)

(** C1.  With [retries = N >= 1], an operation that fails at invocations
    1..N-1 and returns [v] at invocation N makes the wrapper return [v];
    the operation is invoked exactly N times, the last of them being the
    successful one. *)
Theorem retry_returns_first_success {Err V} (mul : Q -> Q -> Q)
    (retries : Z) (delay backoff : Q)
    (name : string) (script : nat -> outcome Err V) (v : V) (w : world Err nat) :
  (1 <= retries)%Z ->
  (forall k, 1 <= k < Z.to_nat retries -> is_raise (script (net w + k)) = true) ->
  script (net w + Z.to_nat retries) = Return v ->
  (wrapper mul retries delay backoff (scripted name script) tt w).1 = Return v /\
  net (wrapper mul retries delay backoff (scripted name script) tt w).2
    = net w + Z.to_nat retries /\
  exists evs,
    log (wrapper mul retries delay backoff (scripted name script) tt w).2
      = log w ++ evs /\
    calls evs = Z.to_nat retries.
Proof.
  intros Hpos Hfail Hok. unfold wrapper.
  destruct (Z.to_nat retries) as [|m] eqn:HN; [lia|].
  destruct (loop_succeeds mul retries backoff name script m (S m) 1%Z delay None
              w v) as [Hres Hnet]; [lia| |done|].
  { intros k Hk. apply Hfail. lia. }
  destruct (loop_log mul retries backoff name script (S m) 1%Z delay None w)
    as (evs & Hlog & _ & Hnet' & _); [lia|].
  repeat split; [done..|].
  exists evs. split; [done|]. rewrite Hnet in Hnet'. lia.
Qed.

Lemma retry_returns_first_success_witness :
  (wrapper Qmult 3 (1 # 10) 2 (scripted "op" fails_twice) tt idle).1 = Return "X" /\
  net (wrapper Qmult 3 (1 # 10) 2 (scripted "op" fails_twice) tt idle).2 = 3.
Proof.
  destruct (retry_returns_first_success Qmult 3 (1 # 10) 2 "op" fails_twice "X" idle)
    as (Hres & Hnet & _).
  - lia.
  - intros [|[|[|k]]] Hk; simpl in Hk; try lia; reflexivity.
  - reflexivity.
  - split; [exact Hres|exact Hnet].
Defined.

(** C2.  With [retries = N >= 1], an operation that fails at each of its N
    invocations makes the wrapper raise the very error of invocation N. *)
Theorem retry_raises_last_error {Err V} (mul : Q -> Q -> Q)
    (retries : Z) (delay backoff : Q)
    (name : string) (script : nat -> outcome Err V) (e : exn Err)
    (w : world Err nat) :
  (1 <= retries)%Z ->
  (forall k, 1 <= k <= Z.to_nat retries -> is_raise (script (net w + k)) = true) ->
  script (net w + Z.to_nat retries) = Raise e ->
  (wrapper mul retries delay backoff (scripted name script) tt w).1 = Raise e /\
  net (wrapper mul retries delay backoff (scripted name script) tt w).2
    = net w + Z.to_nat retries.
Proof.
  intros Hpos Hfail Hlast. unfold wrapper.
  destruct (loop_exhausts mul retries backoff name script (Z.to_nat retries) 1%Z
              delay None w Hfail) as [Hres Hnet].
  split; [|done].
  destruct (retry_loop _ _ _ _ _ _ _ _ _ w).1 as [v'|e'] eqn:Hout;
    [discriminate Hres|].
  apply (loop_raises_last mul retries backoff name script) in Hout.
  - rewrite Hnet, Hlast in Hout. by injection Hout as ->.
  - lia.
  - done.
Qed.

Lemma retry_raises_last_error_witness :
  (wrapper Qmult 3 (1 # 10) 2 (scripted "op" always_fails) tt idle).1
    = Raise (Other "JSONDecodeError").
Proof.
  destruct (retry_raises_last_error Qmult 3 (1 # 10) 2 "op" always_fails
              (Other "JSONDecodeError") idle) as (Hres & _).
  - lia.
  - intros [|[|[|k]]] Hk; simpl in Hk; try lia; reflexivity.
  - reflexivity.
  - exact Hres.
Defined.

Lemma backoff_delays_powers mul d b n :
  (forall y z, mul y z == y * z)%Q ->
  Forall2 Qeq (backoff_delays mul d b n)
    (map (fun k => d * b ^ Z.of_nat k)%Q (seq 0 n)).
Proof.
  intros Hmul. apply Forall2_same_length_lookup. split.
  - by rewrite backoff_delays_length, length_map, length_seq.
  - intros i x y Hx Hy. rewrite list_lookup_fmap in Hy.
    destruct (seq 0 n !! i) as [k|] eqn:Hk; [|done].
    apply lookup_seq in Hk as [-> _]. injection Hy as <-.
    by apply backoff_delays_lookup in Hx.
Qed.

(** Doubling the float [0.3] of [get_json], once or twice, is exact. *)
Lemma get_json_backoff_exact :
  (float_mul (double (3 # 10)) 2 == double (3 # 10) * 2)%Q /\
  (float_mul (float_mul (double (3 # 10)) 2) 2 == double (3 # 10) * 2 * 2)%Q.
Proof. split; reflexivity. Qed.

(** C5 fails on the code: the products of line 81 are float products, and
    these are rounded.  With [delay = 0.1], [backoff = 3.0] and four failing
    attempts the sleeps last [0.1], [0.1 * 3.0 = 0.30000000000000004] and
    [(0.1 * 3.0) * 3.0 = 0.9000000000000001]: the third one is neither the
    number [delay * backoff ^ 2] nor the float [0.1 * (3.0 * 3.0) = 0.9]. *)
Lemma retry_sleeps_not_closed_form :
  let delay := double (1 # 10) in
  let backoff := double 3 in
  exists d2 d3,
    sleeps (log (wrapper float_mul 4 delay backoff
                   (scripted "op" always_fails) tt idle).2)
      = [delay; d2; d3] /\
    (d2 == 5404319552844596 # 18014398509481984)%Q /\
    (d3 == 8106479329266894 # 9007199254740992)%Q /\
    (float_mul delay (float_mul backoff backoff)
       == 8106479329266893 # 9007199254740992)%Q /\
    ~ (d3 == delay * backoff ^ 2)%Q /\
    ~ (d3 == float_mul delay (float_mul backoff backoff))%Q.
Proof.
  intros delay backoff.
  exists (float_mul delay backoff), (float_mul (float_mul delay backoff) backoff).
  repeat split; try reflexivity.
  - intros H. vm_compute in H. discriminate H.
  - intros H. vm_compute in H. discriminate H.
Qed.

(** C5, amended.  In any run of the wrapper, a sleep only happens between
    two invocations of the operation: the sleep that follows invocation [k]
    (the [k] invocations logged in [pre]) lasts [delay] multiplied [k - 1]
    times by [backoff], each product being the one line 81 computes, and is
    followed by a further invocation, so that nothing is slept after the
    last one.  Hence the durations slept are [delay], [mul delay backoff],
    [mul (mul delay backoff) backoff], ..., one less than there are
    invocations.  When the products are exact these are [delay],
    [delay * backoff], [delay * backoff ^ 2], ...: the sleep that follows
    invocation [k] then lasts [delay * backoff ^ (k - 1)]. *)
Theorem retry_sleeps_iterate_backoff {Err V} (mul : Q -> Q -> Q) (retries : Z)
    (delay backoff : Q) (name : string) (script : nat -> outcome Err V)
    (w : world Err nat) :
  exists evs,
    log (wrapper mul retries delay backoff (scripted name script) tt w).2
      = log w ++ evs /\
    (forall pre d post, evs = pre ++ Slept d :: post ->
       1 <= calls pre /\ 1 <= calls post /\
       d = Nat.iter (calls pre - 1) (fun x => mul x backoff) delay) /\
    sleeps evs = backoff_delays mul delay backoff (calls evs - 1) /\
    ((forall x y, mul x y == x * y)%Q ->
       (forall pre d post, evs = pre ++ Slept d :: post ->
          (d == delay * backoff ^ (Z.of_nat (calls pre) - 1))%Q) /\
       Forall2 Qeq (sleeps evs)
         (map (fun k => delay * backoff ^ Z.of_nat k)%Q
            (seq 0 (calls evs - 1)))).
Proof.
  unfold wrapper. destruct (Z.to_nat retries) as [|m] eqn:HN.
  { rewrite loop_O. exists []. simpl. rewrite app_nil_r.
    split; [done|]. split; [by intros [|??] ???|]. split; [done|].
    intros _. split; [by intros [|??] ???|constructor]. }
  destruct (loop_log mul retries backoff name script (S m) 1%Z delay None w)
    as (evs & Hlog & Hsl & _ & Hcalls & _ & _ & Hpos); [lia|].
  specialize (Hcalls ltac:(lia)).
  assert (Hat : forall pre d post, evs = pre ++ Slept d :: post ->
    backoff_delays mul delay backoff (length (sleeps evs)) !! (calls pre - 1)
      = Some d).
  { intros pre d post Heq. rewrite (Hpos _ _ _ Heq). simpl.
    rewrite Nat.sub_0_r, <- Hsl. subst evs. rewrite sleeps_app.
    change (sleeps (Slept d :: post)) with (d :: sleeps post).
    by apply list_lookup_middle. }
  exists evs. split; [done|]. split; [|split].
  - intros pre d post Heq. pose proof (Hat _ _ _ Heq) as Hd.
    pose proof (Hpos _ _ _ Heq) as Hpre. subst evs.
    rewrite calls_app, sleeps_app, length_app in Hcalls.
    change (calls (Slept d :: post)) with (calls post) in Hcalls.
    change (sleeps (Slept d :: post)) with (d :: sleeps post) in Hcalls.
    simpl in Hcalls. repeat split; [lia..|].
    by apply backoff_delays_iter in Hd.
  - rewrite Hsl at 1. rewrite Hcalls. simpl. by rewrite Nat.sub_0_r.
  - intros Hmul. split.
    + intros pre d post Heq. pose proof (Hat _ _ _ Heq) as Hd.
      apply (backoff_delays_lookup _ _ _ _ _ _ Hmul) in Hd.
      rewrite Hd. rewrite (Hpos _ _ _ Heq).
      replace (Z.of_nat (S (length (sleeps pre))) - 1)%Z
        with (Z.of_nat (S (length (sleeps pre)) - 1)) by lia.
      reflexivity.
    + rewrite Hsl, Hcalls. simpl. rewrite Nat.sub_0_r.
      by apply backoff_delays_powers.
Qed.

Lemma retry_sleeps_iterate_backoff_witness :
  sleeps (log (wrapper float_mul 4 (double (1 # 10)) 3
                 (scripted "op" always_fails) tt idle).2)
    = [double (1 # 10); float_mul (double (1 # 10)) 3;
       float_mul (float_mul (double (1 # 10)) 3) 3] /\
  Forall2 Qeq
    (sleeps (log (wrapper Qmult 3 (1 # 10) 2 (scripted "op" always_fails) tt idle).2))
    [1 # 10; 2 # 10].
Proof.
  split.
  - destruct (retry_sleeps_iterate_backoff float_mul 4 (double (1 # 10)) 3 "op"
                always_fails idle) as (evs & Hlog & _ & Hsleeps & _).
    rewrite Hlog. change (log idle ++ evs) with evs.
    vm_compute in Hlog. subst evs. exact Hsleeps.
  - destruct (retry_sleeps_iterate_backoff Qmult 3 (1 # 10) 2 "op" always_fails
                idle) as (evs & Hlog & _ & _ & Hexact).
    destruct (Hexact ltac:(reflexivity)) as [_ Hsleeps].
    rewrite Hlog. change (log idle ++ evs) with evs.
    vm_compute in Hlog. subst evs. vm_compute in Hsleeps. exact Hsleeps.
Defined.

(** C9.  The loop does not look at the errors: two operations that fail at
    the same invocations, whatever they raise, are invoked the same number of
    times with the same sleeps in between, and when the wrapper fails it is,
    for each of them, with the error of its own last invocation. *)
Theorem retry_ignores_error_kind {Err V} (mul : Q -> Q -> Q)
    (retries : Z) (delay backoff : Q)
    (name1 name2 : string) (script1 script2 : nat -> outcome Err V)
    (w1 w2 : world Err nat) :
  (1 <= retries)%Z ->
  net w1 = net w2 ->
  (forall k, is_raise (script1 k) = is_raise (script2 k)) ->
  let r1 := wrapper mul retries delay backoff (scripted name1 script1) tt w1 in
  let r2 := wrapper mul retries delay backoff (scripted name2 script2) tt w2 in
  is_raise r1.1 = is_raise r2.1 /\
  (exists evs1 evs2,
     log r1.2 = log w1 ++ evs1 /\ log r2.2 = log w2 ++ evs2 /\
     calls evs1 = calls evs2 /\ sleeps evs1 = sleeps evs2) /\
  (forall e1, r1.1 = Raise e1 -> script1 (net r1.2) = Raise e1) /\
  (forall e2, r2.1 = Raise e2 -> script2 (net r2.2) = Raise e2).
Proof.
  intros Hpos Hnet Hsame r1 r2. subst r1 r2. unfold wrapper.
  destruct (loop_same_schedule mul retries backoff name1 name2 script1 script2
              Hsame (Z.to_nat retries) 1%Z delay None None w1 w2 Hnet)
    as (Ho & _ & evs1 & evs2 & Hl1 & Hl2 & Hsl & Hc).
  repeat split; [done| |..].
  - by exists evs1, evs2.
  - intros e1. apply loop_raises_last; [lia|done].
  - intros e2. apply loop_raises_last; [lia|done].
Qed.

Lemma retry_ignores_error_kind_witness :
  always_fails
    (net (wrapper Qmult 3 (1 # 10) 2 (scripted "op" always_fails) tt idle).2)
    = Raise (Other "JSONDecodeError") /\
  always_fails_otherwise
    (net (wrapper Qmult 3 (1 # 10) 2 (scripted "op" always_fails_otherwise) tt idle).2)
    = Raise (Other "HTTPStatusError").
Proof.
  destruct (retry_ignores_error_kind Qmult 3 (1 # 10) 2 "op" "op" always_fails
              always_fails_otherwise idle idle) as (_ & _ & H1 & H2).
  - lia.
  - reflexivity.
  - intros [|[|[|k]]]; reflexivity.
  - split.
    + apply (H1 (Other "JSONDecodeError")). reflexivity.
    + apply (H2 (Other "HTTPStatusError")). reflexivity.
Defined.

(** ** [rstrip] and the base URL *)

Lemma char_in_slash c : char_in c "/" = true <-> c = "/"%char.
Proof.
  unfold char_in. rewrite bool_decide_eq_true. simpl.
  rewrite list_elem_of_singleton. done.
Qed.

Lemma rstrip_slashes n : rstrip (slashes n) "/" = EmptyString.
Proof. induction n as [|n IH]; simpl; [done|]. by rewrite IH. Qed.

Lemma rstrip_app_slashes s n : rstrip (s +:+ slashes n) "/" = rstrip s "/".
Proof.
  induction s as [|c s IH]; simpl.
  - apply rstrip_slashes.
  - by rewrite IH.
Qed.

(** What [rstrip] removes is a run of "/" at the end. *)
Lemma rstrip_removes_slashes s : exists n, s = rstrip s "/" +:+ slashes n.
Proof.
  induction s as [|c s [n IH]]; simpl.
  - by exists 0.
  - destruct (rstrip s "/") as [|c' r] eqn:Hr.
    + destruct (char_in c "/") eqn:Hc.
      * apply char_in_slash in Hc as ->. exists (S n). simpl. by rewrite IH at 1.
      * exists n. simpl. by rewrite IH at 1.
    + exists n. simpl. by rewrite IH at 1.
Qed.

(** What [rstrip] leaves does not end with "/". *)
Lemma rstrip_no_trailing_slash s s' : rstrip s "/" <> s' +:+ "/".
Proof.
  revert s'. induction s as [|c s IH]; intros s'; simpl.
  - by destruct s'.
  - destruct (rstrip s "/") as [|c' r] eqn:Hr.
    + destruct (char_in c "/") eqn:Hc.
      * by destruct s'.
      * destruct s' as [|c1 [|c2 s']]; simpl; try done.
        intros [= ->]. by compute in Hc.
    + destruct s' as [|c1 s']; simpl.
      * done.
      * intros [= -> Heq]. by apply (IH s').
Qed.

(** C10.  [__init__] stores the base URL without its trailing "/": what is
    removed is a run of "/" and what is stored does not end with "/".  Two
    constructions whose URLs differ only in trailing "/" therefore yield the
    same reference and the same world, and every program that continues from
    them behaves the same. *)
Theorem base_url_trailing_slashes {Err X A} (url : string) (m n : nat)
    (t : Q) (w : world Err X) (k : loc -> M Err X A) :
  __init__ (url +:+ slashes m) t w = __init__ (url +:+ slashes n) t w /\
  bind (__init__ (url +:+ slashes m) t) k w
    = bind (__init__ (url +:+ slashes n) t) k w /\
  (exists c j,
     heap (__init__ url t w).2 !! next w = Some c /\
     url = base_url c +:+ slashes j /\
     (forall s', base_url c <> s' +:+ "/") /\
     timeout c = t /\ _client c = None).
Proof.
  assert (Heq : __init__ (url +:+ slashes m) t w
                = __init__ (url +:+ slashes n) t w).
  { unfold __init__. by rewrite !rstrip_app_slashes. }
  split; [done|]. split.
  - unfold bind. by rewrite Heq.
  - destruct (rstrip_removes_slashes url) as [j Hj].
    exists (mkAPIClient (rstrip url "/") t None), j. simpl.
    rewrite lookup_insert_eq. repeat split; [done|].
    apply rstrip_no_trailing_slash.
Qed.

(** ** Building a retry policy *)

(** C3 fails on the code: with [retries = 0], [delay = -1] and
    [backoff = 1/2], all three out of range, building the policy raises
    nothing. *)
Lemma retry_policy_accepts_out_of_range :
  (0 < 1)%Z /\ (-1 < 0)%Q /\ ((1 # 2) < 1)%Q /\
  ~ exists e,
      @retry_async_safe string nat unit string Qmult 0 (-1) (1 # 2) = Raise e.
Proof. repeat split. by intros [e He]. Qed.

(** C3, amended.  Building a retry policy never fails, whatever the
    parameters: [retry_async_safe] returns the decorator, and decorating a
    function gives the wrapper for these parameters under the same name. *)
Theorem retry_policy_always_constructs {Err X Args V} (mul : Q -> Q -> Q)
    (retries : Z) (delay backoff : Q) :
  exists decorator,
    @retry_async_safe Err X Args V mul retries delay backoff = Return decorator /\
    forall func : pyfunc Args V,
      __name__ (decorator func) = __name__ func /\
      call (decorator func) = wrapper mul retries delay backoff func.
Proof. by exists (_decorator mul retries delay backoff). Qed.

(** X1.  With [retries < 1] it is the call that fails: the function is not
    invoked, the world is left as it was and the error is the [TypeError] of
    [raise None]. *)
Lemma wrapper_without_attempts {Err X Args V} (mul : Q -> Q -> Q)
    (retries : Z) (delay backoff : Q)
    (func : pyfunc (Err:=Err) (X:=X) Args V) (args : Args) (w : world Err X) :
  (retries < 1)%Z ->
  wrapper mul retries delay backoff func args w
    = (Raise (TypeError "exceptions must derive from BaseException"), w).
Proof.
  intros Hlt. unfold wrapper.
  by replace (Z.to_nat retries) with 0 by lia.
Qed.

(** ** Worlds that differ only by prints, sleeps and requests *)

Lemma lifecycle_app {Err} (l1 l2 : list (event Err)) :
  lifecycle (l1 ++ l2) = lifecycle l1 ++ lifecycle l2.
Proof. apply List.filter_app. Qed.

Lemma requests_app {Err} (l1 l2 : list (event Err)) :
  requests (l1 ++ l2) = requests l1 ++ requests l2.
Proof. apply List.filter_app. Qed.

Section SameObjects.
Context {Err X : Type}.
Implicit Types w : world Err X.

Lemma same_objects_refl w : same_objects w w.
Proof. done. Qed.

Lemma same_objects_trans w1 w2 w3 :
  same_objects w1 w2 -> same_objects w2 w3 -> same_objects w1 w3.
Proof. intros (?&?&?) (?&?&?). repeat split; congruence. Qed.

Lemma same_objects_emit ev w :
  is_lifecycle ev = false -> same_objects w (emit ev w).
Proof.
  intros Hev. repeat split. simpl. rewrite lifecycle_app. simpl.
  rewrite Hev. apply app_nil_r.
Qed.

Lemma emit_all_spec evs w :
  heap (emit_all evs w) = heap w /\ next (emit_all evs w) = next w /\
  net (emit_all evs w) = net w /\ log (emit_all evs w) = log w ++ evs.
Proof.
  revert w. induction evs as [|ev evs IH]; intros w; simpl.
  - by rewrite app_nil_r.
  - destruct (IH (emit ev w)) as (-> & -> & -> & ->). simpl.
    by rewrite <- app_assoc.
Qed.

Lemma same_objects_print m w : same_objects w (print m w).
Proof. by apply same_objects_emit. Qed.

Lemma same_objects_sleep d w : same_objects w (sleep d w).
Proof. by apply same_objects_emit. Qed.

Lemma same_objects_set_net x w : same_objects w (set_net x w).
Proof. done. Qed.

Lemma quiet_log_calls {Args V} (func : pyfunc (Err:=Err) (X:=X) Args V) args :
  quiet (call func args) -> quiet (call (log_calls func) args).
Proof.
  intros Hq w. simpl.
  pose proof (Hq (print (Called (__name__ func)) w)) as Hw.
  destruct (call func args _) as [[v|e] w'] eqn:Hc; simpl in *.
  - eapply same_objects_trans; [apply same_objects_print|].
    eapply same_objects_trans; [exact Hw|]. apply same_objects_print.
  - eapply same_objects_trans; [apply same_objects_print|exact Hw].
Qed.

Lemma quiet_timed {Args V} (func : pyfunc (Err:=Err) (X:=X) Args V) args :
  quiet (call func args) -> quiet (call (timed func) args).
Proof.
  intros Hq w. simpl. unfold try_finally.
  pose proof (Hq w) as Hw. destruct (call func args w) as [o w']. simpl in *.
  eapply same_objects_trans; [exact Hw|]. apply same_objects_print.
Qed.

Lemma quiet_retry_loop {Args V} mul retries backoff (func : pyfunc (Err:=Err) (X:=X) Args V) args fuel :
  quiet (call func args) ->
  forall attempt d last_err,
    quiet (retry_loop mul retries backoff func args fuel attempt d last_err).
Proof.
  intros Hq. induction fuel as [|fuel IH]; intros attempt d last_err w.
  - simpl. by destruct last_err.
  - simpl. pose proof (Hq w) as Hw.
    destruct (call func args w) as [[v|e] w1]; simpl in *; [done|].
    destruct (attempt <? retries)%Z.
    + eapply same_objects_trans; [exact Hw|].
      eapply same_objects_trans; [apply same_objects_print|].
      eapply same_objects_trans; [apply same_objects_sleep|]. apply IH.
    + eapply same_objects_trans; [exact Hw|].
      eapply same_objects_trans; [apply same_objects_print|]. apply IH.
Qed.

Lemma quiet_decorator {Args V} mul retries delay backoff (func : pyfunc (Err:=Err) (X:=X) Args V) args :
  quiet (call func args) ->
  quiet (call (_decorator mul retries delay backoff func) args).
Proof. intros Hq. by apply quiet_retry_loop. Qed.

End SameObjects.

(** ** The client and the gathered calls *)

Section ClientFacts.
Context {Err X JSON Response : Type}.
Variable http_get :
  handle -> string -> option Params -> X -> outcome Err Response * X.
Variable raise_for_status : Response -> option (exn Err).
Variable json : Response -> outcome Err JSON.

Local Abbreviation get_json_body' := (get_json_body http_get raise_for_status json).
Local Abbreviation get_json' := (get_json http_get raise_for_status json).
Implicit Types w : world Err X.

Lemma quiet_get_json_body args : quiet (get_json_body' args).
Proof.
  destruct args as [[self path] params]. intros w. unfold get_json_body.
  destruct (heap w !! self) as [c|]; [|done].
  destruct (_client c) as [h|]; [|done]. simpl.
  destruct (http_get _ _ _ _) as [[resp|e] x].
  - eapply same_objects_trans;
      [apply (same_objects_emit (Requested h path params)); done|].
    destruct (raise_for_status resp); apply same_objects_set_net.
  - eapply same_objects_trans;
      [apply (same_objects_emit (Requested h path params)); done|].
    apply same_objects_set_net.
Qed.

Lemma quiet_get_json args : quiet (call get_json' args).
Proof.
  apply quiet_decorator, quiet_timed, quiet_log_calls. simpl.
  apply quiet_get_json_body.
Qed.

Lemma same_objects_run_all {V} (tasks : list (M Err X V)) :
  Forall quiet tasks -> forall w, same_objects w (run_all tasks w).2.
Proof.
  induction 1 as [|t ts Ht _ IH]; intros w; simpl; [done|].
  pose proof (Ht w) as Hw. destruct (t w) as [o w1].
  pose proof (IH w1) as Hw1. destruct (run_all ts w1) as [os w2].
  simpl in *. by eapply same_objects_trans.
Qed.

Lemma gather_world {V} order (tasks : list (M Err X V)) w :
  (gather order tasks w).2 = (run_all tasks w).2.
Proof.
  unfold gather. destruct (run_all tasks w) as [outs w'].
  by destruct (first_failure order outs).
Qed.

Lemma quiet_gather {V} order (tasks : list (M Err X V)) :
  Forall quiet tasks -> quiet (gather order tasks).
Proof. intros Hq w. rewrite gather_world. by apply same_objects_run_all. Qed.

(** *** Calls outside a scope *)

Lemma retry_loop_S_raise {Args V} mul retries backoff (func : pyfunc Args V) args
    fuel attempt d last_err w e w1 :
  call func args w = (Raise e, w1) ->
  retry_loop mul retries backoff func args (S fuel) attempt d last_err w =
    if (attempt <? retries)%Z
    then retry_loop mul retries backoff func args fuel (attempt + 1)%Z
           (mul d backoff) (Some e)
           (sleep d (print (Failed (__name__ func) attempt retries e) w1))
    else retry_loop mul retries backoff func args fuel (attempt + 1)%Z d (Some e)
           (print (Failed (__name__ func) attempt retries e) w1).
Proof. intros Hc. simpl. by rewrite Hc. Qed.

(** An attempt on a client without connection: the two decorators print
    their lines around the [RuntimeError] of the body. *)
Lemma get_json_attempt_not_initialized self path params w c :
  heap w !! self = Some c -> _client c = None ->
  call (timed (log_calls (PyFunc "get_json" get_json_body'))) (self, path, params) w
    = (Raise not_initialized,
       print (Took "get_json") (print (Called "get_json") w)).
Proof.
  intros Hobj Hnone. simpl. unfold try_finally, get_json_body. simpl.
  unfold loc in *. by rewrite Hobj, Hnone.
Qed.

Lemma get_json_not_initialized self path params w c :
  heap w !! self = Some c -> _client c = None ->
  call get_json' (self, path, params) w
    = (Raise not_initialized, emit_all not_initialized_events w).
Proof.
  intros Hobj Hnone. unfold get_json, _decorator, wrapper.
  change (Z.to_nat 3) with 3. cbn [call].
  erewrite retry_loop_S_raise
    by (by eapply get_json_attempt_not_initialized).
  change (1 <? 3)%Z with true. cbv iota.
  erewrite retry_loop_S_raise
    by (by eapply get_json_attempt_not_initialized).
  change (1 + 1 <? 3)%Z with true. cbv iota.
  erewrite retry_loop_S_raise
    by (by eapply get_json_attempt_not_initialized).
  change (1 + 1 + 1 <? 3)%Z with false. cbv iota.
  reflexivity.
Qed.

(** *** Scopes *)

Lemma entered_eq url t w :
  entered url t w =
    World (<[next w := mkAPIClient (rstrip url "/") t (Some (connection url t w))]>
             (<[next w := mkAPIClient (rstrip url "/") t None]> (heap w)))
          (S (S (next w))) (net w) (log w ++ [Opened (connection url t w)]).
Proof.
  unfold entered, __aenter__, __init__. simpl. by rewrite lookup_insert_eq.
Qed.

(** A block that leaves its client open is followed by exactly one release,
    whatever its outcome. *)
Lemma async_with_init {A} url t (body : loc -> M Err X A) w :
  let r := body (next w) (entered url t w) in
  heap r.2 !! next w
    = Some (mkAPIClient (rstrip url "/") t (Some (connection url t w))) ->
  async_with (__init__ url t) body w =
    (r.1,
     World (<[next w := mkAPIClient (rstrip url "/") t None]> (heap r.2))
           (next r.2) (net r.2) (log r.2 ++ [Closed (connection url t w)])).
Proof.
  intros r Hopen. subst r. unfold async_with.
  change (__init__ url t w) with
    (Return (Err:=Err) (next w),
     World (<[next w := mkAPIClient (rstrip url "/") t None]> (heap w))
           (S (next w)) (net w) (log w)).
  cbv iota beta.
  pose proof (entered_eq url t w) as He. unfold entered in He.
  destruct (__aenter__ (next w) _) as [o w2] eqn:Hent.
  assert (o = Return (next w)) as ->.
  { revert Hent. unfold __aenter__. simpl. rewrite lookup_insert_eq.
    by intros [= <- _]. }
  simpl in He. fold (entered url t w) in He. rewrite He in *.
  rewrite <- (entered_eq url t w) in *.
  destruct (body (next w) (entered url t w)) as [ob w3]. simpl in *.
  unfold __aexit__, loc in *. rewrite Hopen. done.
Qed.

End ClientFacts.

(** ** [gather] *)

Section Gather.
Context {Err X V : Type}.
Implicit Types (outs : list (outcome Err V)) (order : list nat).

Lemma first_failure_Some order outs e :
  first_failure order outs = Some e -> exists i, outs !! i = Some (Raise e).
Proof.
  induction order as [|i order IH]; simpl; [done|].
  destruct (outs !! i) as [[v|e']|] eqn:Hi; try done.
  intros [= ->]. by exists i.
Qed.

Lemma first_failure_returns order (vs : list V) :
  first_failure order (Return (Err:=Err) <$> vs) = None.
Proof.
  induction order as [|i order IH]; simpl; [done|].
  rewrite list_lookup_fmap. by destruct (vs !! i).
Qed.

Lemma collect_returns (vs : list V) : collect (Return (Err:=Err) <$> vs) = Return vs.
Proof. induction vs as [|v vs IH]; csimpl; [done|]. by rewrite IH. Qed.

Lemma collect_raises outs i e :
  outs !! i = Some (Raise e) ->
  exists j e', outs !! j = Some (Raise e') /\ collect outs = Raise e'.
Proof.
  revert i. induction outs as [|[v|e0] outs IH]; intros i Hi; [done| |].
  - destruct i as [|i]; [done|]. destruct (IH i Hi) as (j & e' & Hj & Hc).
    exists (S j), e'. simpl. by rewrite Hc.
  - by exists 0, e0.
Qed.

(** When a task has failed, [gather] raises the error of a failed task, as it
    is. *)
Lemma gather_raises order (tasks : list (M Err X V)) w i e :
  (run_all tasks w).1 !! i = Some (Raise e) ->
  exists j e',
    (run_all tasks w).1 !! j = Some (Raise e') /\
    (gather order tasks w).1 = Raise e'.
Proof.
  unfold gather. destruct (run_all tasks w) as [outs w']. simpl. intros Hi.
  destruct (first_failure order outs) as [e'|] eqn:Hf.
  - apply first_failure_Some in Hf as [j Hj]. by exists j, e'.
  - by eapply collect_raises.
Qed.

Lemma gather_first_failure order (tasks : list (M Err X V)) w e :
  first_failure order (run_all tasks w).1 = Some e ->
  (gather order tasks w).1 = Raise e.
Proof.
  unfold gather. destruct (run_all tasks w) as [outs w']. simpl.
  by intros ->.
Qed.

Lemma gather_returns order (tasks : list (M Err X V)) w vs :
  (run_all tasks w).1 = Return <$> vs ->
  (gather order tasks w).1 = Return vs.
Proof.
  unfold gather. destruct (run_all tasks w) as [outs w']. simpl. intros ->.
  by rewrite first_failure_returns, collect_returns.
Qed.

Lemma run_all_length (tasks : list (M Err X V)) w :
  length (run_all tasks w).1 = length tasks.
Proof.
  revert w. induction tasks as [|t ts IH]; intros w; simpl; [done|].
  destruct (t w) as [o w1]. specialize (IH w1).
  destruct (run_all ts w1) as [os w2]. simpl in *. by rewrite IH.
Qed.

End Gather.

(** ** [fetch_demo] *)

Lemma rstrip_jp_url : rstrip jp_url "/" = jp_url.
Proof. reflexivity. Qed.

Lemma rstrip_hb_url : rstrip hb_url "/" = hb_url.
Proof. reflexivity. Qed.

Section Orchestration.
Context {Err X JSON Response : Type}.
Variable http_get :
  handle -> string -> option Params -> X -> outcome Err Response * X.
Variable raise_for_status : Response -> option (exn Err).
Variable json : Response -> outcome Err JSON.
Variable summary :
  JSON -> JSON -> JSON -> JSON -> JSON -> list string * option (exn Err).
Variable order : list nat.

Local Abbreviation get_json' := (get_json http_get raise_for_status json).
Local Abbreviation gathered_calls' :=
  (gathered_calls http_get raise_for_status json).
Local Abbreviation fetch_demo_scopes' :=
  (fetch_demo_scopes http_get raise_for_status json order).
Local Abbreviation fetch_demo' :=
  (fetch_demo http_get raise_for_status json summary order).
Implicit Types w : world Err X.

Lemma next_entered url t w : next (entered url t w) = S (S (next w)).
Proof. by rewrite entered_eq. Qed.

Lemma quiet_gathered_calls w : Forall quiet (gathered_calls' w).
Proof. repeat constructor; apply quiet_get_json. Qed.

Lemma bind_gather_unpack (tasks : list (M Err X JSON)) w :
  bind (gather order tasks)
    (fun results =>
       match results with
       | [users; post; comments; d1; d2] => ret (users, post, comments, d1, d2)
       | _ => raise (ValueError "wrong number of values to unpack")
       end) w
  = (unpack (gather order tasks w).1, (gather order tasks w).2).
Proof.
  unfold bind. destruct (gather order tasks w) as [[results|e] w']; [|done].
  by destruct results as [|a [|b [|c [|d [|e [|f l]]]]]].
Qed.

Lemma heap_in_scopes w :
  heap (in_scopes w) !! S (S (next w))
    = Some (mkAPIClient (rstrip hb_url "/") 10 (Some (hb_connection w))) /\
  heap (in_scopes w) !! next w
    = Some (mkAPIClient (rstrip jp_url "/") 10 (Some (jp_connection w))).
Proof.
  unfold in_scopes. rewrite (entered_eq hb_url). simpl heap.
  rewrite !next_entered. split.
  - by rewrite lookup_insert_eq.
  - rewrite !lookup_insert_ne by lia. rewrite entered_eq. simpl.
    by rewrite lookup_insert_eq.
Qed.

Lemma fetch_demo_scopes_eq w :
  fetch_demo_scopes' w =
    (unpack (gather order (gathered_calls' w) (in_scopes w)).1,
     scopes_left w (gather order (gathered_calls' w) (in_scopes w)).2).
Proof.
  pose proof (quiet_gather order _ (quiet_gathered_calls w) (in_scopes w))
    as (Hheap & _ & _).
  destruct (heap_in_scopes w) as [Hhb Hjp].
  assert (Hinner :
    async_with (__init__ hb_url 10)
      (fun hb =>
         bind (gather order
                 [call get_json' (next w, "/users/1", None);
                  call get_json' (next w, "/posts/1", None);
                  call get_json' (next w, "/comments", Some [("postId", PInt 1)]);
                  call get_json' (hb, "/delay/1", None);
                  call get_json' (hb, "/delay/2", None)])
           (fun results =>
              match results with
              | [users; post; comments; d1; d2] =>
                  ret (users, post, comments, d1, d2)
              | _ => raise (ValueError "wrong number of values to unpack")
              end))
      (entered jp_url 10 w)
    = (unpack (gather order (gathered_calls' w) (in_scopes w)).1,
       World (<[S (S (next w)) := mkAPIClient (rstrip hb_url "/") 10 None]>
                (heap (gather order (gathered_calls' w) (in_scopes w)).2))
             (next (gather order (gathered_calls' w) (in_scopes w)).2)
             (net (gather order (gathered_calls' w) (in_scopes w)).2)
             (log (gather order (gathered_calls' w) (in_scopes w)).2
                ++ [Closed (hb_connection w)]))).
  { rewrite async_with_init; cbv beta; rewrite !next_entered;
      fold (in_scopes w); fold (gathered_calls' w);
      rewrite bind_gather_unpack; cbn [fst snd]; [done|].
    unfold gathered_calls, loc in *. by rewrite Hheap. }
  unfold fetch_demo_scopes. cbv zeta.
  change "https://jsonplaceholder.typicode.com"%string with jp_url.
  change "https://httpbin.org"%string with hb_url.
  rewrite async_with_init; cbv beta;
    match type of Hinner with
    | _ = ?r =>
        match goal with
        | |- context [async_with ?a ?b ?c] =>
            replace (async_with a b c) with r by (symmetry; exact Hinner)
        end
    end; cbn [fst snd heap next net log].
  - unfold scopes_left. by rewrite <- app_assoc.
  - unfold gathered_calls, loc in *. rewrite lookup_insert_ne by lia.
    by rewrite Hheap.
Qed.

Lemma print_summary_spec r w :
  same_objects w (print_summary summary r w).2 /\
  ((print_summary summary r w).1 = Return tt \/
   exists e, (print_summary summary r w).1 = Raise e).
Proof.
  destruct r as [[[[users post] comments] d1] d2]. unfold print_summary.
  destruct (summary users post comments d1 d2) as [lines stop].
  assert (Hq : same_objects w (foldl (fun w line => print (Text line) w) w lines)).
  { revert w. induction lines as [|line lines IH]; intros w; simpl; [done|].
    eapply same_objects_trans; [apply same_objects_print|apply IH]. }
  destruct stop as [e|]; simpl; eauto.
Qed.

(** [fetch_demo] in terms of its scopes: the summary and the timing line
    follow. *)
Lemma fetch_demo_eq w :
  call fetch_demo' tt w =
    match (fetch_demo_scopes' w).1 with
    | Return r =>
        ((print_summary summary r (fetch_demo_scopes' w).2).1,
         print (Took "fetch_demo")
           (print_summary summary r (fetch_demo_scopes' w).2).2)
    | Raise e => (Raise e, print (Took "fetch_demo") (fetch_demo_scopes' w).2)
    end.
Proof.
  unfold fetch_demo, timed, try_finally, bind. cbn [call __name__].
  destruct (fetch_demo_scopes' w) as [[r|e] w1]; cbn [fst snd]; [|done].
  by destruct (print_summary summary r w1).
Qed.

Lemma lifecycle_in_scopes w :
  lifecycle (log (in_scopes w)) =
    lifecycle (log w) ++ [Opened (jp_connection w); Opened (hb_connection w)].
Proof.
  unfold in_scopes. rewrite (entered_eq hb_url). cbn [log].
  fold (hb_connection w). rewrite lifecycle_app, (entered_eq jp_url 10 w).
  cbn [log]. rewrite lifecycle_app. by rewrite <- app_assoc.
Qed.

(** The connections of [fetch_demo], from start to end. *)
Lemma fetch_demo_lifecycle w :
  lifecycle (log (call fetch_demo' tt w).2) =
    lifecycle (log w) ++
    [Opened (jp_connection w); Opened (hb_connection w);
     Closed (hb_connection w); Closed (jp_connection w)] /\
  heap (call fetch_demo' tt w).2 !! next w
    = Some (mkAPIClient jp_url 10 None) /\
  heap (call fetch_demo' tt w).2 !! S (S (next w))
    = Some (mkAPIClient hb_url 10 None).
Proof.
  pose proof (quiet_gather order _ (quiet_gathered_calls w) (in_scopes w))
    as (Hheap & _ & Hlife).
  assert (Hscopes :
    lifecycle (log (fetch_demo_scopes' w).2) =
      lifecycle (log w) ++
      [Opened (jp_connection w); Opened (hb_connection w);
       Closed (hb_connection w); Closed (jp_connection w)] /\
    heap (fetch_demo_scopes' w).2 !! next w
      = Some (mkAPIClient jp_url 10 None) /\
    heap (fetch_demo_scopes' w).2 !! S (S (next w))
      = Some (mkAPIClient hb_url 10 None)).
  { rewrite fetch_demo_scopes_eq. unfold scopes_left. cbn [snd log heap].
    split; [|split].
    - rewrite lifecycle_app, Hlife, lifecycle_in_scopes.
      by rewrite <- app_assoc.
    - unfold loc. rewrite lookup_insert_eq. by rewrite rstrip_jp_url.
    - unfold loc. rewrite lookup_insert_ne by lia.
      rewrite lookup_insert_eq. by rewrite rstrip_hb_url. }
  rewrite fetch_demo_eq.
  destruct (fetch_demo_scopes' w) as [[r|e] w1]; cbn [fst snd] in *.
  - destruct (print_summary_spec r w1) as [(Hh & _ & Hl) _].
    cbn [log heap print emit]. rewrite lifecycle_app, app_nil_r, Hl, Hh.
    exact Hscopes.
  - cbn [log heap print emit]. by rewrite lifecycle_app, app_nil_r.
Qed.

End Orchestration.

(** ** The scoped client and the orchestration *)

Section Claims.
Context {Err X JSON Response : Type}.
Variable http_get :
  handle -> string -> option Params -> X -> outcome Err Response * X.
Variable raise_for_status : Response -> option (exn Err).
Variable json : Response -> outcome Err JSON.
Variable summary :
  JSON -> JSON -> JSON -> JSON -> JSON -> list string * option (exn Err).
Variable order : list nat.

Local Abbreviation get_json' := (get_json http_get raise_for_status json).
Local Abbreviation gathered_calls' :=
  (gathered_calls http_get raise_for_status json).
Local Abbreviation fetch_demo_scopes' :=
  (fetch_demo_scopes http_get raise_for_status json order).
Local Abbreviation fetch_demo' :=
  (fetch_demo http_get raise_for_status json summary order).
Implicit Types w : world Err X.

(** C7.  On a client that has not been entered yet, and on a client whose
    scope has been left, [get_json] raises the [RuntimeError] of line 131;
    no request is sent and the network is not touched. *)
Theorem get_json_outside_scope_fails :
  (forall url t path params w,
     let r := call get_json' (next w, path, params) (__init__ url t w).2 in
     r.1 = Raise not_initialized /\
     net r.2 = net w /\ requests (log r.2) = requests (log w)) /\
  (forall self path params w w',
     __aexit__ self w = (Return tt, w') ->
     let r := call get_json' (self, path, params) w' in
     r.1 = Raise not_initialized /\
     net r.2 = net w' /\ requests (log r.2) = requests (log w')).
Proof.
  assert (Hcore : forall self path params w c,
    heap w !! self = Some c -> _client c = None ->
    let r := call get_json' (self, path, params) w in
    r.1 = Raise not_initialized /\
    net r.2 = net w /\ requests (log r.2) = requests (log w)).
  { intros self path params w c Hobj Hnone r. subst r.
    rewrite (get_json_not_initialized _ _ _ _ _ _ _ _ Hobj Hnone).
    destruct (emit_all_spec (Err:=Err) not_initialized_events w)
      as (_ & _ & Hnet & Hlog).
    cbn [fst snd]. rewrite Hnet, Hlog, requests_app.
    repeat split. apply app_nil_r. }
  split.
  - intros url t path params w.
    apply (Hcore (next w) path params (__init__ url t w).2
             (mkAPIClient (rstrip url "/") t None)); [|done].
    simpl. by rewrite lookup_insert_eq.
  - intros self path params w w' Hexit. revert Hexit. unfold __aexit__.
    destruct (heap w !! self) as [c|] eqn:Hobj; [|done].
    destruct (_client c) as [h|] eqn:Hc.
    + intros [= <-].
      apply (Hcore _ _ _ _ (mkAPIClient (base_url c) (timeout c) None));
        [|done].
      simpl. by rewrite lookup_insert_eq.
    + intros [= <-]. by apply (Hcore _ _ _ _ c).
Qed.

(** C6.  A block that leaves its client open, however it ends, is followed
    by one release of the connection, after which the client has none.  In
    [fetch_demo], whatever the gathered calls do, the two connections are
    opened and closed once each, the inner one closed first, and both
    clients end without connection. *)
Theorem scoped_clients_released_in_reverse :
  (forall A url t (body : loc -> M Err X A) w,
     heap (body (next w) (entered url t w)).2 !! next w
       = Some (mkAPIClient (rstrip url "/") t (Some (connection url t w))) ->
     (async_with (__init__ url t) body w).1
       = (body (next w) (entered url t w)).1 /\
     log (async_with (__init__ url t) body w).2
       = log (body (next w) (entered url t w)).2 ++ [Closed (connection url t w)] /\
     heap (async_with (__init__ url t) body w).2 !! next w
       = Some (mkAPIClient (rstrip url "/") t None)) /\
  (forall w,
     lifecycle (log (call fetch_demo' tt w).2) =
       lifecycle (log w) ++
       [Opened (jp_connection w); Opened (hb_connection w);
        Closed (hb_connection w); Closed (jp_connection w)] /\
     heap (call fetch_demo' tt w).2 !! next w
       = Some (mkAPIClient jp_url 10 None) /\
     heap (call fetch_demo' tt w).2 !! S (S (next w))
       = Some (mkAPIClient hb_url 10 None)).
Proof.
  split.
  - intros A url t body w Hopen. rewrite async_with_init by done.
    cbn [fst snd log heap]. repeat split. apply lookup_insert_eq.
  - apply fetch_demo_lifecycle.
Qed.

(** C8.  When every task returns, [gather] returns the list of their
    results in the order of submission, whatever the order in which they
    finish; in [fetch_demo] the five names are bound to the results of the
    five calls in that order. *)
Theorem gather_results_follow_submission :
  (forall V order' (tasks : list (M Err X V)) w vs,
     (run_all tasks w).1 = Return <$> vs ->
     (gather order' tasks w).1 = Return vs /\
     length vs = length tasks /\
     forall i v, vs !! i = Some v <-> (run_all tasks w).1 !! i = Some (Return v)) /\
  (forall w users post comments d1 d2,
     (run_all (gathered_calls' w) (in_scopes w)).1
       = [Return users; Return post; Return comments; Return d1; Return d2] ->
     (fetch_demo_scopes' w).1 = Return (users, post, comments, d1, d2)).
Proof.
  split.
  - intros V order' tasks w vs Hall. split; [by apply gather_returns|]. split.
    + by rewrite <- (run_all_length tasks w), Hall, length_fmap.
    + intros i v. rewrite Hall, list_lookup_fmap.
      destruct (vs !! i); simpl; naive_solver.
  - intros w users post comments d1 d2 Hall.
    rewrite fetch_demo_scopes_eq. cbn [fst].
    by rewrite (gather_returns order _ _ [users; post; comments; d1; d2]).
Qed.

(** C4, amended.  When one of the gathered calls fails, [fetch_demo] fails
    with the error of a failed call itself, not with a wrapper around it:
    the error of the first call of [order] that failed. *)
Theorem fetch_demo_raises_call_error (w : world Err X) (i : nat) (e : exn Err) :
  (run_all (gathered_calls' w) (in_scopes w)).1 !! i = Some (Raise e) ->
  (exists j e',
     (run_all (gathered_calls' w) (in_scopes w)).1 !! j = Some (Raise e') /\
     (call fetch_demo' tt w).1 = Raise e') /\
  (forall e',
     first_failure order (run_all (gathered_calls' w) (in_scopes w)).1 = Some e' ->
     (call fetch_demo' tt w).1 = Raise e').
Proof.
  intros Hi.
  assert (Hprop : forall e',
    (gather order (gathered_calls' w) (in_scopes w)).1 = Raise e' ->
    (call fetch_demo' tt w).1 = Raise e').
  { intros e' Hg. rewrite fetch_demo_eq, fetch_demo_scopes_eq. cbn [fst].
    by rewrite Hg. }
  split.
  - destruct (gather_raises order _ _ _ _ Hi) as (j & e' & Hj & Hg).
    exists j, e'. split; [done|]. by apply Hprop.
  - intros e' Hf. by apply Hprop, gather_first_failure.
Qed.

End Claims.

(** ** Concrete runs *)

Lemma get_json_outside_scope_fails_witness :
  (call (get_json echo any_status decoded) (0, "/users/1", None)
     (__aexit__ 0 (entered "https://example.com/" 10 idle)).2).1
  = Raise not_initialized.
Proof.
  destruct (get_json_outside_scope_fails echo any_status decoded) as [_ Hafter].
  destruct (Hafter 0 "/users/1" None (entered "https://example.com/" 10 idle)
              (__aexit__ 0 (entered "https://example.com/" 10 idle)).2)
    as (Hres & _).
  - vm_compute. reflexivity.
  - exact Hres.
Defined.

Lemma scoped_clients_released_in_reverse_witness :
  log (async_with (A:=string) (__init__ "https://example.com/" 10)
         (fun _ => raise (Other "boom")) idle).2
  = [Opened (Handle 1 "https://example.com" 10);
     Closed (Handle 1 "https://example.com" 10)].
Proof.
  destruct (scoped_clients_released_in_reverse echo any_status decoded
              summary_of_strings [0; 1; 2; 3; 4]) as [Hscope _].
  destruct (Hscope string "https://example.com/" 10%Q
              (fun _ => raise (Other "boom")) idle) as (_ & Hlog & _).
  - vm_compute. reflexivity.
  - rewrite Hlog. vm_compute. reflexivity.
Defined.

Lemma gather_results_follow_submission_witness :
  (fetch_demo_scopes echo any_status decoded [4; 1; 0; 3; 2] idle).1
  = Return ("/users/1", "/posts/1", "/comments", "/delay/1", "/delay/2").
Proof.
  destruct (gather_results_follow_submission echo any_status decoded
              [4; 1; 0; 3; 2]) as [_ Hdemo].
  apply Hdemo. vm_compute. reflexivity.
Defined.

(** C4 fails on the code: when no host can be reached, the first gathered
    call fails with a [ConnectError], and [fetch_demo] raises that error, an
    object of class [ConnectError], not an [AggregateFailure] around it. *)
Lemma fetch_demo_error_is_not_wrapped :
  (run_all (gathered_calls unreachable any_status decoded idle)
     (in_scopes idle)).1 !! 0 = Some (Raise (Other "ConnectError")) /\
  (call (fetch_demo unreachable any_status decoded summary_of_strings [0; 1; 2; 3; 4])
     tt idle).1 = Raise (Other "ConnectError") /\
  ~ exists agg,
      (call (fetch_demo unreachable any_status decoded summary_of_strings
               [0; 1; 2; 3; 4]) tt idle).1 = Raise agg /\
      class_name agg = "AggregateFailure".
Proof.
  assert (Hres :
    (call (fetch_demo unreachable any_status decoded summary_of_strings [0; 1; 2; 3; 4])
       tt idle).1 = Raise (Other "ConnectError")) by (vm_compute; reflexivity).
  split; [vm_compute; reflexivity|]. split; [exact Hres|].
  intros (agg & Hagg & Hcls). rewrite Hres in Hagg.
  injection Hagg as <-. discriminate Hcls.
Qed.

Lemma fetch_demo_raises_call_error_witness :
  (call (fetch_demo flaky any_status decoded summary_of_strings [4; 1; 0; 3; 2])
     tt idle).1 = Raise (Other "ReadTimeout").
Proof.
  destruct (fetch_demo_raises_call_error flaky any_status decoded summary_of_strings
              [4; 1; 0; 3; 2] idle 4 (Other "ReadTimeout")) as [_ Hfirst].
  - vm_compute. reflexivity.
  - apply Hfirst. vm_compute. reflexivity.
Defined.

(** * Further properties *)

(** ** More on the retry loop *)

Section RetryLoopMore.
Context {Err V : Type}.
Variables (mul : Q -> Q -> Q) (retries : Z) (backoff : Q) (name : string).
Variable script : nat -> outcome Err V.

Local Abbreviation loop := (retry_loop mul retries backoff (scripted name script) tt).

(** The operation is invoked at most [fuel] times. *)
Lemma loop_invocations_bound fuel :
  forall attempt d last_err (w : world Err nat),
  net w <= net (loop fuel attempt d last_err w).2 <= net w + fuel.
Proof.
  induction fuel as [|fuel IH]; intros attempt d last_err w.
  - rewrite loop_O. simpl. lia.
  - destruct (script (S (net w))) as [v'|e] eqn:Hs.
    { rewrite (loop_S_return _ _ _ _ _ _ _ _ _ _ _ Hs). simpl. lia. }
    rewrite (loop_S_raise _ _ _ _ _ _ _ _ _ _ _ Hs). cbv zeta.
    destruct (attempt <? retries)%Z;
      match goal with
      | |- context [loop fuel ?a ?d' ?l ?u] =>
          pose proof (IH a d' l u) as Hb
      end; simpl in Hb; lia.
Qed.

(** A value that comes out of the loop is the one the last invocation
    returned. *)
Lemma loop_returns_last fuel : forall attempt d last_err (w : world Err nat) v,
  (loop fuel attempt d last_err w).1 = Return v ->
  script (net (loop fuel attempt d last_err w).2) = Return v.
Proof.
  induction fuel as [|fuel IH]; intros attempt d last_err w v.
  - rewrite loop_O. discriminate.
  - destruct (script (S (net w))) as [v'|e] eqn:Hs.
    { rewrite (loop_S_return _ _ _ _ _ _ _ _ _ _ _ Hs). simpl.
      by intros [= <-]. }
    rewrite (loop_S_raise _ _ _ _ _ _ _ _ _ _ _ Hs). cbv zeta.
    destruct (attempt <? retries)%Z; apply IH.
Qed.

(** The warnings of a run: the [i]-th one (from 0) was printed for attempt
    [attempt + i] and carries the error of the [i]-th invocation of the
    run. *)
Lemma loop_warnings fuel : forall attempt d last_err (w : world Err nat),
  exists evs,
    log (loop fuel attempt d last_err w).2 = log w ++ evs /\
    net (loop fuel attempt d last_err w).2
      = net w + length (warnings evs)
        + (if is_raise (loop fuel attempt d last_err w).1 then 0 else 1) /\
    forall i nm a r e,
      warnings evs !! i = Some (nm, a, r, e) ->
      nm = name /\ a = (attempt + Z.of_nat i)%Z /\ r = retries /\
      script (net w + S i) = Raise e.
Proof.
  induction fuel as [|fuel IH]; intros attempt d last_err w.
  - rewrite loop_O. exists []. simpl. rewrite app_nil_r.
    split; [done|]. split; [lia|done].
  - destruct (script (S (net w))) as [v'|e] eqn:Hs.
    { rewrite (loop_S_return _ _ _ _ _ _ _ _ _ _ _ Hs).
      exists [Printed (Called name)]. simpl.
      split; [done|]. split; [lia|]. by intros [|i] ?????. }
    rewrite (loop_S_raise _ _ _ _ _ _ _ _ _ _ _ Hs). cbv zeta.
    assert (Hstep : forall (w' : world Err nat) evs,
      net w' = S (net w) ->
      (forall i nm a r e',
         warnings evs !! i = Some (nm, a, r, e') ->
         nm = name /\ a = (attempt + 1 + Z.of_nat i)%Z /\ r = retries /\
         script (net w' + S i) = Raise e') ->
      forall i nm a r e',
        ((name, attempt, retries, e) :: warnings evs) !! i = Some (nm, a, r, e') ->
        nm = name /\ a = (attempt + Z.of_nat i)%Z /\ r = retries /\
        script (net w + S i) = Raise e').
    { intros w' evs Hnet Hevs [|i] nm a r e' Hi.
      - injection Hi as <- <- <- <-. rewrite Z.add_0_r, Nat.add_1_r. done.
      - destruct (Hevs i nm a r e' Hi) as (-> & -> & -> & Hscript).
        repeat split; [lia|]. rewrite <- Hscript, Hnet. f_equal. lia. }
    destruct (attempt <? retries)%Z.
    + destruct (IH (attempt + 1)%Z (mul d backoff) (Some e)
        (sleep d (print (Failed name attempt retries e)
           (set_net (S (net w)) (print (Called name) w)))))
        as (evs & Hlog & Hnet & Hevs).
      exists ([Printed (Called name); Printed (Failed name attempt retries e);
               Slept d] ++ evs).
      split; [rewrite Hlog; simpl log; by rewrite <- !app_assoc|].
      change (warnings (_ ++ evs))
        with ((name, attempt, retries, e) :: warnings evs).
      split; [rewrite Hnet; simpl; lia|].
      eapply Hstep; [|exact Hevs]; reflexivity.
    + destruct (IH (attempt + 1)%Z d (Some e)
        (print (Failed name attempt retries e)
           (set_net (S (net w)) (print (Called name) w))))
        as (evs & Hlog & Hnet & Hevs).
      exists ([Printed (Called name); Printed (Failed name attempt retries e)]
               ++ evs).
      split; [rewrite Hlog; simpl log; by rewrite <- !app_assoc|].
      change (warnings (_ ++ evs))
        with ((name, attempt, retries, e) :: warnings evs).
      split; [rewrite Hnet; simpl; lia|].
      eapply Hstep; [|exact Hevs]; reflexivity.
Qed.

End RetryLoopMore.

(** The exact product of a duration [0 <= x] by a factor [1 <= y] is not
    below [x]. *)
Lemma Qmult_grows (x y : Q) : (0 <= x)%Q -> (1 <= y)%Q -> (x <= x * y)%Q.
Proof. intros Hx Hy. nra. Qed.

Section Growing.
Variable mul : Q -> Q -> Q.
Hypothesis mul_grows :
  forall x y, (0 <= x)%Q -> (1 <= y)%Q -> (x <= mul x y)%Q.

(** With [0 <= d] and [1 <= b] the delays of the schedule start at [d] and
    never shrink. *)
Lemma backoff_delays_ge d b n :
  (0 <= d)%Q -> (1 <= b)%Q -> Forall (Qle d) (backoff_delays mul d b n).
Proof using mul_grows.
  revert d. induction n as [|n IH]; intros d Hd Hb; simpl; constructor.
  - apply Qle_refl.
  - pose proof (mul_grows d b Hd Hb) as Hdb.
    eapply Forall_impl; [apply IH; [by eapply Qle_trans|done]|].
    intros x Hx. simpl in Hx. by eapply Qle_trans.
Qed.

Lemma backoff_delays_increasing d b n i j x y :
  (0 <= d)%Q -> (1 <= b)%Q -> i <= j ->
  backoff_delays mul d b n !! i = Some x ->
  backoff_delays mul d b n !! j = Some y ->
  (x <= y)%Q.
Proof using mul_grows.
  revert d i j. induction n as [|n IH]; intros d i j Hd Hb Hij; [done|].
  destruct i as [|i].
  - intros [= <-] Hy.
    pose proof (backoff_delays_ge d b (S n) Hd Hb) as Hge.
    rewrite Forall_lookup in Hge. by apply (Hge j).
  - destruct j as [|j]; [lia|]. simpl.
    pose proof (mul_grows d b Hd Hb) as Hdb.
    apply IH; [by eapply Qle_trans|done|lia].
Qed.

End Growing.

Lemma wrapper_without_attempts_witness :
  wrapper Qmult 0 (1 # 10) 2 (scripted "op" fails_twice) tt idle
    = (Raise (TypeError "exceptions must derive from BaseException"), idle).
Proof. apply wrapper_without_attempts. lia. Defined.

(** X2.  Whatever the operation does, the wrapper invokes it at most
    [retries] times. *)
Theorem retry_attempts_bounded {Err V} (mul : Q -> Q -> Q)
    (retries : Z) (delay backoff : Q)
    (name : string) (script : nat -> outcome Err V) (w : world Err nat) :
  net w <= net (wrapper mul retries delay backoff (scripted name script) tt w).2
        <= net w + Z.to_nat retries.
Proof. apply loop_invocations_bound. Qed.

(** X3.  With [retries >= 1] the wrapper ends the way the last invocation of
    the operation ended: with its value or with its error. *)
Theorem retry_outcome_is_last_invocation {Err V} (mul : Q -> Q -> Q)
    (retries : Z) (delay backoff : Q) (name : string) (script : nat -> outcome Err V)
    (w : world Err nat) :
  (1 <= retries)%Z ->
  (wrapper mul retries delay backoff (scripted name script) tt w).1
    = script (net (wrapper mul retries delay backoff (scripted name script) tt w).2).
Proof.
  intros Hpos. unfold wrapper.
  destruct (retry_loop _ _ _ _ _ _ _ _ _ w).1 as [v|e] eqn:Hout.
  - symmetry. by apply loop_returns_last.
  - symmetry. apply loop_raises_last; [lia|done|done].
Qed.

Lemma retry_outcome_is_last_invocation_witness :
  (wrapper Qmult 2 (1 # 10) 2 (scripted "op" fails_twice) tt idle).1
    = fails_twice 2.
Proof.
  rewrite (retry_outcome_is_last_invocation Qmult 2 (1 # 10) 2 "op" fails_twice idle)
    by lia.
  reflexivity.
Defined.

(** X4.  A success ends the run at once: when the operation fails [m] times
    and then returns [v], with [m < retries], the wrapper returns [v] after
    [m + 1] invocations and [m] sleeps, those of the backoff schedule. *)
Theorem retry_stops_at_first_success {Err V} (mul : Q -> Q -> Q)
    (retries : Z) (delay backoff : Q)
    (name : string) (script : nat -> outcome Err V) (m : nat) (v : V)
    (w : world Err nat) :
  m < Z.to_nat retries ->
  (forall k, 1 <= k <= m -> is_raise (script (net w + k)) = true) ->
  script (net w + S m) = Return v ->
  (wrapper mul retries delay backoff (scripted name script) tt w).1 = Return v /\
  net (wrapper mul retries delay backoff (scripted name script) tt w).2
    = net w + S m /\
  exists evs,
    log (wrapper mul retries delay backoff (scripted name script) tt w).2
      = log w ++ evs /\
    sleeps evs = backoff_delays mul delay backoff m.
Proof.
  intros Hm Hfail Hok. unfold wrapper.
  destruct (loop_succeeds mul retries backoff name script m (Z.to_nat retries)
              1%Z delay None w v Hm Hfail Hok) as [Hres Hnet].
  destruct (loop_log mul retries backoff name script (Z.to_nat retries) 1%Z delay
              None w) as (evs & Hlog & Hsl & Hnet' & Hcalls & _); [lia|].
  repeat split; [done..|].
  exists evs. split; [done|]. rewrite Hsl. f_equal.
  specialize (Hcalls ltac:(lia)). rewrite Hnet in Hnet'. lia.
Qed.

Lemma retry_stops_at_first_success_witness :
  (wrapper Qmult 5 (1 # 10) 2 (scripted "op" fails_twice) tt idle).1 = Return "X" /\
  net (wrapper Qmult 5 (1 # 10) 2 (scripted "op" fails_twice) tt idle).2 = 3.
Proof.
  destruct (retry_stops_at_first_success Qmult 5 (1 # 10) 2 "op" fails_twice 2 "X"
              idle) as (Hres & Hnet & _).
  - simpl. lia.
  - intros [|[|[|k]]] Hk; simpl in Hk; try lia; reflexivity.
  - reflexivity.
  - split; [exact Hres|exact Hnet].
Defined.

(** X5.  Every failed invocation is reported once, in order: the [i]-th
    warning of a run (from 0) names the operation, is numbered [i + 1] out
    of [retries] and carries the error of invocation [i + 1]; there are as
    many warnings as failed invocations. *)
Theorem retry_warnings_numbered {Err V} (mul : Q -> Q -> Q)
    (retries : Z) (delay backoff : Q)
    (name : string) (script : nat -> outcome Err V) (w : world Err nat) :
  exists evs,
    log (wrapper mul retries delay backoff (scripted name script) tt w).2
      = log w ++ evs /\
    net (wrapper mul retries delay backoff (scripted name script) tt w).2
      = net w + length (warnings evs)
        + (if is_raise (wrapper mul retries delay backoff (scripted name script)
                          tt w).1 then 0 else 1) /\
    forall i nm a r e,
      warnings evs !! i = Some (nm, a, r, e) ->
      nm = name /\ a = Z.of_nat (S i) /\ r = retries /\
      script (net w + S i) = Raise e.
Proof.
  unfold wrapper.
  destruct (loop_warnings mul retries backoff name script (Z.to_nat retries) 1%Z
              delay None w) as (evs & Hlog & Hnet & Hevs).
  exists evs. split; [done|]. split; [done|].
  intros i nm a r e Hi. destruct (Hevs i nm a r e Hi) as (? & ? & ? & ?).
  repeat split; [done|lia|done|done].
Qed.



(** ** More on the client *)

Lemma requests_emit_all {Err X} (evs : list (event Err)) (w : world Err X) :
  requests (log (emit_all evs w)) = requests (log w) ++ requests evs.
Proof.
  destruct (emit_all_spec evs w) as (_ & _ & _ & ->). apply requests_app.
Qed.

Section ClientMore.
Context {Err X JSON Response : Type}.
Variable http_get :
  handle -> string -> option Params -> X -> outcome Err Response * X.
Variable raise_for_status : Response -> option (exn Err).
Variable json : Response -> outcome Err JSON.

Local Abbreviation get_json_body' := (get_json_body http_get raise_for_status json).
Local Abbreviation get_json' := (get_json http_get raise_for_status json).
Local Abbreviation attempt' :=
  (timed (log_calls (PyFunc "get_json" get_json_body'))).
Implicit Types w : world Err X.

(** One attempt on a client with a connection sends one request over it and
    sleeps nothing. *)
Lemma get_json_attempt_open self path params w c h :
  heap w !! self = Some c -> _client c = Some h ->
  heap (call attempt' (self, path, params) w).2 = heap w /\
  requests (log (call attempt' (self, path, params) w).2)
    = requests (log w) ++ [Requested h path params] /\
  sleeps (log (call attempt' (self, path, params) w).2) = sleeps (log w).
Proof.
  intros Hobj Hopen. simpl. unfold try_finally, get_json_body. simpl.
  unfold loc in *. rewrite Hobj, Hopen.
  destruct (http_get h path params (net w)) as [[resp|e] x]; simpl.
  - destruct (raise_for_status resp) as [e|]; simpl.
    + rewrite !requests_app, !sleeps_app. simpl.
      by rewrite !app_nil_r.
    + destruct (json resp) as [v|e]; simpl;
        rewrite !requests_app, !sleeps_app; simpl; by rewrite !app_nil_r.
  - rewrite !requests_app, !sleeps_app. simpl. by rewrite !app_nil_r.
Qed.

(** The retry loop around these attempts: [k] requests, [k - 1] sleeps. *)
Lemma get_json_loop_open mul retries backoff self path params c h fuel :
  _client c = Some h ->
  forall attempt d last_err w,
  heap w !! self = Some c ->
  (Z.of_nat fuel + attempt = retries + 1)%Z ->
  exists k,
    k <= fuel /\ (fuel <> 0 -> 1 <= k) /\
    (is_raise (retry_loop mul retries backoff attempt' (self, path, params)
                 fuel attempt d last_err w).1 = true -> k = fuel) /\
    requests (log (retry_loop mul retries backoff attempt' (self, path, params)
                     fuel attempt d last_err w).2)
      = requests (log w) ++ replicate k (Requested h path params) /\
    sleeps (log (retry_loop mul retries backoff attempt' (self, path, params)
                   fuel attempt d last_err w).2)
      = sleeps (log w) ++ backoff_delays mul d backoff (k - 1).
Proof.
  intros Hopen. induction fuel as [|fuel IH]; intros attempt d last_err w Hobj Hinv.
  - exists 0. cbn [retry_loop]. destruct last_err; simpl;
      rewrite !app_nil_r; repeat split; done || lia.
  - destruct (get_json_attempt_open self path params w c h Hobj Hopen)
      as (Hheap & Hreq & Hsl).
    cbn [retry_loop].
    destruct (call attempt' (self, path, params) w) as [[v|e] w1] eqn:Hcall;
      cbn [fst snd] in *.
    { exists 1. simpl. rewrite Hreq, Hsl, app_nil_r.
      repeat split; done || lia. }
    assert (Hobj1 : heap w1 !! self = Some c) by (by rewrite Hheap).
    destruct (attempt <? retries)%Z eqn:Hlt.
    + apply Z.ltb_lt in Hlt.
      destruct (IH (attempt + 1)%Z (mul d backoff) (Some e)
                  (sleep d (print (Failed "get_json" attempt retries e) w1))
                  Hobj1 ltac:(lia)) as (k & Hk & Hk1 & Hraise & Hrq & Hs).
      specialize (Hk1 ltac:(lia)).
      exists (S k). cbn [__name__ timed log_calls].
      rewrite Hrq, Hs. cbn [log sleep print emit].
      rewrite !requests_app, !sleeps_app, Hreq, Hsl. simpl.
      rewrite !app_nil_r, <- !app_assoc. simpl. rewrite Nat.sub_0_r.
      destruct k as [|k]; [lia|]. simpl. rewrite Nat.sub_0_r.
      repeat split; try done; try lia. intros Hr. f_equal. by apply Hraise.
    + apply Z.ltb_ge in Hlt.
      destruct (IH (attempt + 1)%Z d (Some e)
                  (print (Failed "get_json" attempt retries e) w1)
                  Hobj1 ltac:(lia)) as (k & Hk & _ & _ & Hrq & Hs).
      assert (fuel = 0) as -> by lia. assert (k = 0) as -> by lia.
      exists 1. cbn [__name__ timed log_calls].
      cbn [retry_loop] in *. simpl in *. rewrite !app_nil_r in *.
      rewrite !requests_app, !sleeps_app, Hreq, Hsl. simpl.
      rewrite !app_nil_r. repeat split; done || lia.
Qed.

(** X7.  On a client with a connection, when the request is answered, the
    status is accepted and the body decodes, [get_json] returns the decoded
    value at the first attempt: one request, no sleep, no warning, and the
    objects are left as they were. *)
Theorem get_json_returns_decoded_body self path params w c h resp x v :
  heap w !! self = Some c -> _client c = Some h ->
  http_get h path params (net w) = (Return resp, x) ->
  raise_for_status resp = None ->
  json resp = Return v ->
  (call (get_json http_get raise_for_status json)
     (self, path, params) w).1 = Return v /\
  net (call (get_json http_get raise_for_status json)
     (self, path, params) w).2 = x /\
  heap (call (get_json http_get raise_for_status json)
     (self, path, params) w).2 = heap w /\
  log (call (get_json http_get raise_for_status json)
     (self, path, params) w).2
    = log w ++ [Printed (Called "get_json"); Requested h path params;
                Printed (ReturnedFrom "get_json"); Printed (Took "get_json")].
Proof.
  intros Hobj Hopen Hget Hstatus Hjson.
  assert (Hattempt : call attempt' (self, path, params) w
    = (Return v,
       print (Took "get_json")
         (print (ReturnedFrom "get_json")
            (set_net x
               (emit (Requested h path params)
                  (print (Called "get_json") w)))))).
  { simpl. unfold try_finally, get_json_body. simpl. unfold loc in *.
    by rewrite Hobj, Hopen, Hget, Hstatus, Hjson. }
  unfold get_json, _decorator, wrapper. change (Z.to_nat 3) with 3.
  cbn [call retry_loop]. rewrite Hattempt. simpl.
  by rewrite <- !app_assoc.
Qed.

(** The requests and sleeps of a call on a client with a connection. *)
Lemma get_json_requests_open self path params w c h :
  heap w !! self = Some c -> _client c = Some h ->
  exists k,
    1 <= k <= 3 /\
    requests (log (call get_json' (self, path, params) w).2)
      = requests (log w) ++ replicate k (Requested h path params) /\
    sleeps (log (call get_json' (self, path, params) w).2)
      = sleeps (log w) ++ backoff_delays Qmult (3 # 10) 2 (k - 1) /\
    (is_raise (call get_json' (self, path, params) w).1 = true -> k = 3).
Proof.
  intros Hobj Hopen.
  destruct (get_json_loop_open Qmult 3 2 self path params c h 3 Hopen 1%Z (3 # 10)
              None w Hobj eq_refl) as (k & Hk & Hk1 & Hraise & Hreq & Hsl).
  exists k. repeat split; [by apply Hk1|done..].
Qed.

(** X8.  On a client with a connection, [get_json] sends its request at
    least once and at most three times, always the same request over the
    same connection, and sleeps 0.3 and then 0.6 between the requests; it
    fails only after the third request. *)
Theorem get_json_sends_one_to_three_requests self path params w c h :
  heap w !! self = Some c -> _client c = Some h ->
  exists k,
    1 <= k <= 3 /\
    requests (log (call get_json' (self, path, params) w).2)
      = requests (log w) ++ replicate k (Requested h path params) /\
    sleeps (log (call get_json' (self, path, params) w).2)
      = sleeps (log w) ++ backoff_delays Qmult (3 # 10) 2 (k - 1) /\
    (is_raise (call get_json' (self, path, params) w).1 = true -> k = 3).
Proof. apply get_json_requests_open. Qed.

(** A failed attempt on a client with a connection fails with an error of
    the request, of the status check or of the decoder. *)
Lemma get_json_attempt_error self path params w c h e :
  heap w !! self = Some c -> _client c = Some h ->
  (call attempt' (self, path, params) w).1 = Raise e ->
  exists x,
    (http_get h path params x).1 = Raise e \/
    exists resp,
      (http_get h path params x).1 = Return resp /\
      (raise_for_status resp = Some e \/
       raise_for_status resp = None /\ json resp = Raise e).
Proof.
  intros Hobj Hopen Hres. exists (net w). revert Hres.
  simpl. unfold try_finally, get_json_body. simpl.
  unfold loc in *. rewrite Hobj, Hopen.
  destruct (http_get h path params (net w)) as [[resp|e'] x]; simpl.
  - destruct (raise_for_status resp) as [e'|] eqn:Hst; simpl.
    + intros [= <-]. right. exists resp. eauto.
    + destruct (json resp) as [v|e'] eqn:Hj; simpl; [done|].
      intros [= <-]. right. exists resp. eauto.
  - intros [= <-]. by left.
Qed.

(** X9.  On a client with a connection, an error raised by [get_json] is
    an error of [httpx]: it was raised by a request, by the status check of
    a response or by the decoding of a response whose status was accepted.
    In particular it is not the error of a missing connection unless the
    library raised that very object. *)
Theorem get_json_error_comes_from_httpx self path params w c h e :
  heap w !! self = Some c -> _client c = Some h ->
  (call (get_json http_get raise_for_status json)
     (self, path, params) w).1 = Raise e ->
  exists x,
    (http_get h path params x).1 = Raise e \/
    exists resp,
      (http_get h path params x).1 = Return resp /\
      (raise_for_status resp = Some e \/
       raise_for_status resp = None /\ json resp = Raise e).
Proof.
  intros Hobj Hopen. unfold get_json, _decorator, wrapper. cbn [call].
  set (origin := fun e => exists x,
    (http_get h path params x).1 = Raise e \/
    exists resp,
      (http_get h path params x).1 = Return resp /\
      (raise_for_status resp = Some e \/
       raise_for_status resp = None /\ json resp = Raise e)).
  assert (Hloop : forall fuel attempt d last_err w0,
    heap w0 !! self = Some c ->
    (fuel = 0 -> last_err <> None) ->
    (forall e0, last_err = Some e0 -> origin e0) ->
    (retry_loop Qmult 3 2 attempt' (self, path, params) fuel attempt d last_err
       w0).1 = Raise e ->
    origin e).
  { induction fuel as [|fuel IH]; intros attempt d last_err w0 Hobj0 Hsome Hlast.
    - cbn [retry_loop]. destruct last_err as [e0|]; [|by destruct Hsome].
      simpl. intros [= <-]. by apply Hlast.
    - cbn [retry_loop].
      pose proof (get_json_attempt_error self path params w0 c h) as Herr.
      destruct (get_json_attempt_open self path params w0 c h Hobj0 Hopen)
        as (Hheap & _).
      destruct (call attempt' (self, path, params) w0) as [[v|e1] w1];
        cbn [fst snd] in *; [done|].
      specialize (Herr e1 Hobj0 Hopen eq_refl).
      destruct (attempt <? 3)%Z; intros Hres;
        (refine (IH _ _ _ _ _ _ _ Hres);
         [cbn [heap sleep print emit]; by rewrite Hheap|done
         |intros e0 [= <-]; exact Herr]). }
  apply Hloop; [done|simpl; lia|done].
Qed.

(** X10.  Whatever its arguments and its outcome, [get_json] opens and closes
    no connection and changes no client object. *)
Theorem get_json_leaves_clients_alone args w :
  heap (call get_json' args w).2 = heap w /\
  next (call get_json' args w).2 = next w /\
  lifecycle (log (call get_json' args w).2) = lifecycle (log w).
Proof. apply quiet_get_json. Qed.

End ClientMore.

(** X11.  [__aexit__] may be repeated: once it has returned, a second call
    returns too and changes nothing, in particular closes nothing. *)
Theorem aexit_twice {Err X} (self : loc) (w w' : world Err X) :
  __aexit__ self w = (Return tt, w') ->
  __aexit__ self w' = (Return tt, w').
Proof.
  unfold __aexit__. destruct (heap w !! self) as [c|] eqn:Hobj; [|done].
  destruct (_client c) as [h|] eqn:Hc; intros [= <-].
  - simpl. by rewrite lookup_insert_eq.
  - by rewrite Hobj, Hc.
Qed.

(** X12.  A client can be used for a second scope after the first has been
    left: each scope opens a connection of its own and closes it, and the
    client ends without connection. *)
Theorem client_reused_after_exit {Err X} (self : loc) (c : APIClient)
    (w : world Err X) :
  heap w !! self = Some c ->
  let h1 := Handle (next w) (base_url c) (timeout c) in
  let h2 := Handle (S (next w)) (base_url c) (timeout c) in
  let r := bind (__aenter__ self) (fun _ =>
           bind (__aexit__ self) (fun _ =>
           bind (__aenter__ self) (fun _ => __aexit__ self))) w in
  r.1 = Return tt /\
  log r.2 = log w ++ [Opened h1; Closed h1; Opened h2; Closed h2] /\
  heap r.2 !! self = Some (mkAPIClient (base_url c) (timeout c) None).
Proof.
  intros Hobj h1 h2 r. subst r h1 h2.
  unfold bind, __aenter__, __aexit__. unfold loc in *. rewrite Hobj. simpl.
  rewrite lookup_insert_eq. simpl. rewrite lookup_insert_eq. simpl.
  rewrite lookup_insert_eq. simpl. rewrite lookup_insert_eq.
  by rewrite <- !app_assoc.
Qed.

(** X13.  Entering a client that already has a connection replaces the
    connection without closing it: after two [__aenter__] and two
    [__aexit__] the first connection has been opened and never closed,
    although the client ends without connection. *)
Theorem client_entered_twice_leaks {Err X} (self : loc) (c : APIClient)
    (w : world Err X) :
  heap w !! self = Some c ->
  let h1 := Handle (next w) (base_url c) (timeout c) in
  let h2 := Handle (S (next w)) (base_url c) (timeout c) in
  let r := bind (__aenter__ self) (fun _ =>
           bind (__aenter__ self) (fun _ =>
           bind (__aexit__ self) (fun _ => __aexit__ self))) w in
  r.1 = Return tt /\
  log r.2 = log w ++ [Opened h1; Opened h2; Closed h2] /\
  heap r.2 !! self = Some (mkAPIClient (base_url c) (timeout c) None).
Proof.
  intros Hobj h1 h2 r. subst r h1 h2.
  unfold bind, __aenter__, __aexit__. unfold loc in *. rewrite Hobj. simpl.
  rewrite lookup_insert_eq. simpl. rewrite lookup_insert_eq. simpl.
  rewrite lookup_insert_eq. simpl. rewrite lookup_insert_eq.
  by rewrite <- !app_assoc.
Qed.

(** ** More on [rstrip] *)

Lemma append_empty_r (s : string) : s +:+ "" = s.
Proof.
  induction s as [|c s IH]; [done|].
  change (String c (s +:+ "") = String c s). by f_equal.
Qed.

Lemma append_assoc (s1 s2 s3 : string) :
  (s1 +:+ s2) +:+ s3 = s1 +:+ (s2 +:+ s3).
Proof.
  induction s1 as [|c s1 IH]; [done|].
  change (String c ((s1 +:+ s2) +:+ s3) = String c (s1 +:+ (s2 +:+ s3))).
  by f_equal.
Qed.

Lemma slashes_snoc n : slashes (S n) = slashes n +:+ "/".
Proof.
  induction n as [|n IH]; [done|].
  change (String "/" (slashes (S n)) = String "/" (slashes n +:+ "/")).
  by f_equal.
Qed.

(** X14.  [__init__] keeps a base URL that does not end with "/" as it is,
    and giving it the base URL it has stored yields the same client. *)
Theorem base_url_without_trailing_slash_kept {Err X} (url : string) (t : Q)
    (w : world Err X) :
  ((forall s', url <> s' +:+ "/") ->
   heap (__init__ url t w).2 !! next w = Some (mkAPIClient url t None)) /\
  __init__ (rstrip url "/") t w = __init__ url t w.
Proof.
  assert (Hid : forall s, (forall s', s <> s' +:+ "/") -> rstrip s "/" = s).
  { intros s Hs. destruct (rstrip_removes_slashes s) as [[|n] Hn].
    - by rewrite append_empty_r in Hn.
    - exfalso. apply (Hs (rstrip s "/" +:+ slashes n)).
      by rewrite append_assoc, <- slashes_snoc. }
  split.
  - intros Hno. simpl. by rewrite lookup_insert_eq, (Hid url Hno).
  - unfold __init__. rewrite (Hid (rstrip url "/")); [done|].
    apply rstrip_no_trailing_slash.
Qed.

(** ** More on [fetch_demo] and [main] *)

Section OrchestrationMore.
Context {Err X JSON Response : Type}.
Variable http_get :
  handle -> string -> option Params -> X -> outcome Err Response * X.
Variable raise_for_status : Response -> option (exn Err).
Variable json : Response -> outcome Err JSON.
Variable summary :
  JSON -> JSON -> JSON -> JSON -> JSON -> list string * option (exn Err).
Variable order : list nat.
Variable leftover : list (event Err).

Local Abbreviation get_json' := (get_json http_get raise_for_status json).
Local Abbreviation gathered_calls' :=
  (gathered_calls http_get raise_for_status json).
Local Abbreviation fetch_demo_scopes' :=
  (fetch_demo_scopes http_get raise_for_status json order).
Local Abbreviation fetch_demo' :=
  (fetch_demo http_get raise_for_status json summary order).
Local Abbreviation main' :=
  (main http_get raise_for_status json summary order leftover).
Implicit Types w : world Err X.

(** Calls of [get_json] on clients with a connection, one after the other:
    between one and three requests each. *)
Lemma run_all_get_json_count (calls : list (loc * string * option Params)) :
  forall w,
  Forall (fun args => exists c h,
            heap w !! args.1.1 = Some c /\ _client c = Some h) calls ->
  exists n,
    length calls <= n <= 3 * length calls /\
    length (requests (log (run_all (map (call get_json') calls) w).2))
      = length (requests (log w)) + n.
Proof.
  induction calls as [|[[self path] params] calls IH]; intros w Hopen.
  - exists 0. simpl. lia.
  - apply Forall_cons in Hopen as [(c & h & Hobj & Hc) Hrest].
    destruct (get_json_requests_open http_get raise_for_status
                json self path params w c h Hobj Hc) as (k & Hk & Hreq & _).
    destruct (quiet_get_json http_get raise_for_status json
                (self, path, params) w) as (Hheap & _).
    cbn [map run_all].
    destruct (call get_json' (self, path, params) w) as [o w1].
    cbn [fst snd] in Hreq, Hheap.
    destruct (IH w1) as (n & Hn & Hlen).
    { eapply Forall_impl; [exact Hrest|]. intros args. cbv beta.
      by rewrite Hheap. }
    destruct (run_all (map (call get_json') calls) w1) as [os w2].
    cbn [fst snd length] in *. exists (k + n). split; [lia|].
    rewrite Hlen, Hreq, length_app, length_replicate. lia.
Qed.

Lemma print_summary_log r w :
  log (print_summary summary r w).2
    = log w ++ map (fun line => Printed (Text line))
                 (let '(users, post, comments, d1, d2) := r in
                  (summary users post comments d1 d2).1) /\
  (print_summary summary r w).1
    = (let '(users, post, comments, d1, d2) := r in
       match (summary users post comments d1 d2).2 with
       | Some e => Raise e
       | None => Return tt
       end).
Proof.
  destruct r as [[[[users post] comments] d1] d2]. unfold print_summary.
  destruct (summary users post comments d1 d2) as [lines stop].
  assert (Hlog : log (foldl (fun w line => print (Text line) w) w lines)
                 = log w ++ map (fun line => Printed (Text line)) lines).
  { revert w. induction lines as [|line lines IH]; intros w; simpl.
    - by rewrite app_nil_r.
    - rewrite IH. simpl. by rewrite <- app_assoc. }
  destruct stop as [e|]; simpl; by rewrite Hlog.
Qed.

Lemma requests_text (lines : list string) :
  requests (map (fun line => Printed (Err:=Err) (Text line)) lines) = [].
Proof. by induction lines. Qed.

Lemma requests_in_scopes w : requests (log (in_scopes w)) = requests (log w).
Proof.
  unfold in_scopes. rewrite (entered_eq hb_url). cbn [log].
  rewrite requests_app, (entered_eq jp_url 10 w). cbn [log].
  rewrite requests_app. simpl. by rewrite !app_nil_r.
Qed.

(** The log of [fetch_demo] after the gathered calls: the two releases, the
    summary lines if the calls returned, the timing line. *)
Lemma fetch_demo_log w :
  exists lines,
    log (call fetch_demo' tt w).2 =
      log (run_all (gathered_calls' w) (in_scopes w)).2
      ++ [Closed (hb_connection w); Closed (jp_connection w)]
      ++ map (fun line => Printed (Text line)) lines
      ++ [Printed (Took "fetch_demo")].
Proof.
  rewrite fetch_demo_eq, fetch_demo_scopes_eq, gather_world.
  cbn [fst snd].
  destruct (unpack _) as [r|e].
  - destruct (print_summary_log r
      (scopes_left w (run_all (gathered_calls' w) (in_scopes w)).2))
      as [Hlog _].
    eexists. cbn [log print emit snd]. rewrite Hlog. unfold scopes_left.
    cbn [log]. by rewrite <- !app_assoc.
  - exists []. cbn [log print emit snd scopes_left]. unfold scopes_left.
    cbn [log]. by rewrite <- !app_assoc.
Qed.

(** X15.  Whatever the network does, a run of [fetch_demo] sends at least
    five and at most fifteen requests. *)
Theorem fetch_demo_sends_five_to_fifteen_requests w :
  exists n,
    5 <= n <= 15 /\
    length (requests (log (call fetch_demo' tt w).2))
      = length (requests (log w)) + n.
Proof.
  destruct (fetch_demo_log w) as [lines Hlog].
  destruct (heap_in_scopes w) as [Hhb Hjp].
  destruct (run_all_get_json_count
              [(next w, "/users/1", None);
               (next w, "/posts/1", None);
               (next w, "/comments", Some [("postId", PInt 1)]);
               (S (S (next w)), "/delay/1", None);
               (S (S (next w)), "/delay/2", None)]%string
              (in_scopes w)) as (n & Hn & Hlen).
  { repeat constructor; simpl; eauto. }
  exists n. split; [simpl in Hn; lia|].
  rewrite Hlog, !requests_app, requests_text.
  change (requests [Closed (hb_connection w); Closed (jp_connection w)])
    with (@nil (event Err)).
  change (requests [Printed (Took "fetch_demo")]) with (@nil (event Err)).
  rewrite !app_nil_r, <- (requests_in_scopes w). exact Hlen.
Qed.

(** X16.  When the five calls have returned, [fetch_demo] ends as the
    printing of the summary ends: it returns [None], or raises the exception
    that stopped the printing.  The lines of the summary are printed once
    both connections are closed, and the timing line comes last. *)
Theorem fetch_demo_ends_as_summary w users post comments d1 d2 :
  (run_all (gathered_calls' w) (in_scopes w)).1
    = [Return users; Return post; Return comments; Return d1; Return d2] ->
  (call fetch_demo' tt w).1
    = match (summary users post comments d1 d2).2 with
      | Some e => Raise e
      | None => Return tt
      end /\
  log (call fetch_demo' tt w).2 =
    log (run_all (gathered_calls' w) (in_scopes w)).2
    ++ [Closed (hb_connection w); Closed (jp_connection w)]
    ++ map (fun line => Printed (Text line))
         (summary users post comments d1 d2).1
    ++ [Printed (Took "fetch_demo")].
Proof.
  intros Hall.
  rewrite fetch_demo_eq, fetch_demo_scopes_eq, gather_world. cbn [fst snd].
  rewrite (gather_returns order _ _ [users; post; comments; d1; d2] Hall).
  cbn [unpack].
  destruct (print_summary_log (users, post, comments, d1, d2)
    (scopes_left w (run_all (gathered_calls' w) (in_scopes w)).2))
    as [Hlog Hout].
  cbn [fst snd log print emit]. rewrite Hlog, Hout. unfold scopes_left.
  cbn [log]. by rewrite <- !app_assoc.
Qed.


End OrchestrationMore.

(** ** More concrete runs *)

Lemma get_json_returns_decoded_body_witness :
  (call (get_json echo any_status decoded) (0, "/users/1", None)
     (entered "https://example.com/" 10 idle)).1 = Return "/users/1".
Proof.
  refine (proj1 (get_json_returns_decoded_body echo any_status decoded
    0 "/users/1" None (entered "https://example.com/" 10 idle)
    (mkAPIClient "https://example.com" 10
       (Some (Handle 1 "https://example.com" 10)))
    (Handle 1 "https://example.com" 10) "/users/1" 1 "/users/1" _ _ _ _ _));
    vm_compute; reflexivity.
Defined.

Lemma get_json_sends_one_to_three_requests_witness :
  length (requests (log
    (call (get_json unreachable any_status decoded) (0, "/users/1", None)
       (entered "https://example.com/" 10 idle)).2)) = 3.
Proof.
  destruct (get_json_sends_one_to_three_requests unreachable any_status decoded
    0 "/users/1" None (entered "https://example.com/" 10 idle)
    (mkAPIClient "https://example.com" 10
       (Some (Handle 1 "https://example.com" 10)))
    (Handle 1 "https://example.com" 10))
    as (k & _ & Hreq & _ & Hraise).
  - vm_compute. reflexivity.
  - vm_compute. reflexivity.
  - pose proof (Hraise eq_refl) as ->. apply (f_equal length) in Hreq.
    etrans; [exact Hreq|]. vm_compute. reflexivity.
Defined.

Lemma aexit_twice_witness :
  __aexit__ 0 (__aexit__ 0 (entered "https://example.com/" 10 idle)).2
  = (Return tt, (__aexit__ 0 (entered "https://example.com/" 10 idle)).2).
Proof.
  apply (aexit_twice 0 (entered "https://example.com/" 10 idle)).
  vm_compute. reflexivity.
Defined.

Lemma client_reused_after_exit_witness :
  log (bind (__aenter__ 0) (fun _ =>
       bind (__aexit__ 0) (fun _ =>
       bind (__aenter__ 0) (fun _ => __aexit__ 0)))
         (__init__ "https://example.com/" 10 idle).2).2
  = [Opened (Handle 1 "https://example.com" 10);
     Closed (Handle 1 "https://example.com" 10);
     Opened (Handle 2 "https://example.com" 10);
     Closed (Handle 2 "https://example.com" 10)].
Proof.
  destruct (client_reused_after_exit 0
              (mkAPIClient "https://example.com" 10 None)
              (__init__ "https://example.com/" 10 idle).2) as (_ & Hlog & _).
  - vm_compute. reflexivity.
  - exact Hlog.
Defined.

Lemma client_entered_twice_leaks_witness :
  log (bind (__aenter__ 0) (fun _ =>
       bind (__aenter__ 0) (fun _ =>
       bind (__aexit__ 0) (fun _ => __aexit__ 0)))
         (__init__ "https://example.com/" 10 idle).2).2
  = [Opened (Handle 1 "https://example.com" 10);
     Opened (Handle 2 "https://example.com" 10);
     Closed (Handle 2 "https://example.com" 10)].
Proof.
  destruct (client_entered_twice_leaks 0
              (mkAPIClient "https://example.com" 10 None)
              (__init__ "https://example.com/" 10 idle).2) as (_ & Hlog & _).
  - vm_compute. reflexivity.
  - exact Hlog.
Defined.

Lemma base_url_without_trailing_slash_kept_witness :
  heap (__init__ hb_url 10 idle).2 !! 0 = Some (mkAPIClient hb_url 10 None).
Proof.
  apply (proj1 (base_url_without_trailing_slash_kept hb_url 10 idle)).
  intros s' Hs'. apply (rstrip_no_trailing_slash hb_url s').
  rewrite rstrip_hb_url. exact Hs'.
Defined.

Lemma fetch_demo_ends_as_summary_witness :
  (call (fetch_demo echo any_status decoded summary_of_strings [4; 1; 0; 3; 2])
     tt idle).1
    = Raise (AttributeError "'str' object has no attribute 'get'") /\
  log (call (fetch_demo echo any_status decoded summary_of_strings
               [4; 1; 0; 3; 2]) tt idle).2 =
    log (run_all (gathered_calls echo any_status decoded idle)
           (in_scopes idle)).2
    ++ [Closed (hb_connection idle); Closed (jp_connection idle);
        Printed (Text "Summary"); Printed (Took "fetch_demo")].
Proof.
  destruct (fetch_demo_ends_as_summary echo any_status decoded
              summary_of_strings [4; 1; 0; 3; 2] idle
              "/users/1" "/posts/1" "/comments" "/delay/1" "/delay/2")
    as [Hout Hlog].
  - vm_compute. reflexivity.
  - split; [exact Hout|exact Hlog].
Defined.


Lemma get_json_error_comes_from_httpx_witness :
  exists x,
    (unreachable (Handle 1 "https://example.com" 10) "/users/1" None x).1
      = Raise (Other "ConnectError") \/
    exists resp,
      (unreachable (Handle 1 "https://example.com" 10) "/users/1" None x).1
        = Return resp /\
      (any_status resp = Some (Other "ConnectError") \/
       any_status resp = None /\ decoded resp = Raise (Other "ConnectError")).
Proof.
  apply (get_json_error_comes_from_httpx unreachable any_status decoded
    0 "/users/1" None (entered "https://example.com/" 10 idle)
    (mkAPIClient "https://example.com" 10
       (Some (Handle 1 "https://example.com" 10)))
    (Handle 1 "https://example.com" 10) (Other "ConnectError"));
    vm_compute; reflexivity.
Defined.
